(** * Outreach dashboard backend: the email dispatcher, the warehouse client
      and the HTTP facade, embedded in Rocq.

    Source files covered:
    - [src/sendEmails.py]                 (module [SendEmails])
    - [src/send-emails.py]                (module [SendEmailsScript])
    - [src/archive/snowflakeConnector.py] (module [SnowflakeConnector])
    - [src/archive/app.py], [src/app.py]  (modules [ArchiveApp], [App])

    Python values are modelled as follows.  A [str] and a [bytes] object are
    both a [string] (a sequence of 8-bit characters; a character is the code
    point of the same number).  A [dict] with string keys is a [gmap string].
    A raised exception is the [Raise] case of [Exc]; side effects (calls to
    the vendor SDKs, output, the random generator, attributes of the Flask
    application object) are threaded through a [World]. *)

From Stdlib Require Import String Ascii List ZArith NArith Lia Bool.
From Stdlib Require Import DecimalString DecimalNat DecimalN DecimalFacts.
From stdpp Require Import base strings gmap list.

Local Open Scope nat_scope.

(* ===================================================================== *)
(** ** Text helpers *)
(* ===================================================================== *)

Module Text.

Definition chars (s : string) : list ascii := list_ascii_of_string s.
Definition of_chars (l : list ascii) : string := string_of_list_ascii l.

Definition NL : ascii := "010"%char.
Definition CR : ascii := "013"%char.
Definition nl : string := String NL "".

(** [sep.join(items)] *)
Fixpoint join (sep : string) (items : list string) : string :=
  match items with
  | [] => ""
  | [x] => x
  | x :: rest => x +:+ sep +:+ join sep rest
  end.

(** [s.split(c)] on lists of characters: the pieces between occurrences
    of [c]; always at least one piece. *)
Fixpoint split_on (c : ascii) (l : list ascii) : list (list ascii) :=
  match l with
  | [] => [[]]
  | x :: rest =>
      if Ascii.eqb x c then [] :: split_on c rest
      else match split_on c rest with
           | [] => [[x]]
           | p :: ps => (x :: p) :: ps
           end
  end.

(** The lines of a text whose line separator is ["\n"]. *)
Definition lines (s : string) : list string :=
  map of_chars (split_on NL (chars s)).

(** [c * n] *)
Definition replicate_char (n : nat) (c : ascii) : string :=
  of_chars (repeat c n).

(** [str(n)] for a non-negative integer. *)
Definition str_of_nat (n : nat) : string :=
  NilZero.string_of_uint (Nat.to_uint n).

(** ['%0<width>d' % n] for a non-negative integer: decimal digits, padded
    with zeros on the left up to [width] characters. *)
Definition zero_padded (width : nat) (n : N) : string :=
  let digits := NilZero.string_of_uint (N.to_uint n) in
  replicate_char (width - String.length digits) "0" +:+ digits.

(** 7-bit text: [s.encode('us-ascii')] succeeds. *)
Definition is_7bit_char (c : ascii) : bool :=
  match c with Ascii _ _ _ _ _ _ _ b7 => negb b7 end.
Definition is_7bit (s : string) : bool := forallb is_7bit_char (chars s).

(** [s.encode('utf-8')] for code points below 256. *)
Definition utf8_char (c : ascii) : list ascii :=
  match c with
  | Ascii b0 b1 b2 b3 b4 b5 b6 b7 =>
      if b7
      then [Ascii b6 b7 false false false false true true;
            Ascii b0 b1 b2 b3 b4 b5 false true]
      else [c]
  end.
Definition utf8 (s : string) : string := of_chars (flat_map utf8_char (chars s)).

End Text.

(* ===================================================================== *)
(** ** Base64 ([base64.urlsafe_b64encode], [binascii.b2a_base64]) *)
(* ===================================================================== *)

Module Base64.

(** A group of six bits, most significant first. *)
Definition sextet : Type := bool * bool * bool * bool * bool * bool.

Definition sextet_index (s : sextet) : nat :=
  let '(b5, b4, b3, b2, b1, b0) := s in
  32 * Nat.b2n b5 + 16 * Nat.b2n b4 + 8 * Nat.b2n b3
  + 4 * Nat.b2n b2 + 2 * Nat.b2n b1 + Nat.b2n b0.

(** The two alphabets differ in the characters for 62 and 63. *)
Record alphabet := { c62 : ascii; c63 : ascii }.
Definition standard : alphabet := {| c62 := "+"; c63 := "/" |}.
Definition urlsafe : alphabet := {| c62 := "-"; c63 := "_" |}.

Definition char_of_index (al : alphabet) (i : nat) : ascii :=
  if i <? 26 then ascii_of_nat (65 + i)
  else if i <? 52 then ascii_of_nat (97 + (i - 26))
  else if i <? 62 then ascii_of_nat (48 + (i - 52))
  else if i =? 62 then c62 al
  else c63 al.

Definition char_of_sextet (al : alphabet) (s : sextet) : ascii :=
  char_of_index al (sextet_index s).

Definition sextet_of_index (i : nat) : sextet :=
  (Nat.testbit i 5, Nat.testbit i 4, Nat.testbit i 3,
   Nat.testbit i 2, Nat.testbit i 1, Nat.testbit i 0).

Definition sextet_of_char (al : alphabet) (c : ascii) : option sextet :=
  let n := nat_of_ascii c in
  if (65 <=? n) && (n <=? 90) then Some (sextet_of_index (n - 65))
  else if (97 <=? n) && (n <=? 122) then Some (sextet_of_index (n - 97 + 26))
  else if (48 <=? n) && (n <=? 57) then Some (sextet_of_index (n - 48 + 52))
  else if Ascii.eqb c (c62 al) then Some (sextet_of_index 62)
  else if Ascii.eqb c (c63 al) then Some (sextet_of_index 63)
  else None.

Definition pad : ascii := "="%char.

(** Three input bytes give four output characters; one or two trailing
    bytes give a padded group. *)
Fixpoint encode_chars (al : alphabet) (bs : list ascii) : list ascii :=
  match bs with
  | [] => []
  | [Ascii a0 a1 a2 a3 a4 a5 a6 a7] =>
      [char_of_sextet al (a7, a6, a5, a4, a3, a2);
       char_of_sextet al (a1, a0, false, false, false, false);
       pad; pad]
  | [Ascii a0 a1 a2 a3 a4 a5 a6 a7; Ascii b0 b1 b2 b3 b4 b5 b6 b7] =>
      [char_of_sextet al (a7, a6, a5, a4, a3, a2);
       char_of_sextet al (a1, a0, b7, b6, b5, b4);
       char_of_sextet al (b3, b2, b1, b0, false, false);
       pad]
  | Ascii a0 a1 a2 a3 a4 a5 a6 a7 :: Ascii b0 b1 b2 b3 b4 b5 b6 b7
      :: Ascii c0 c1 c2 c3 c4 c5 c6 c7 :: rest =>
      char_of_sextet al (a7, a6, a5, a4, a3, a2)
      :: char_of_sextet al (a1, a0, b7, b6, b5, b4)
      :: char_of_sextet al (b3, b2, b1, b0, c7, c6)
      :: char_of_sextet al (c5, c4, c3, c2, c1, c0)
      :: encode_chars al rest
  end.

Definition encode (al : alphabet) (s : string) : string :=
  Text.of_chars (encode_chars al (Text.chars s)).

(** [base64.urlsafe_b64encode(s)] *)
Definition urlsafe_b64encode (s : string) : string := encode urlsafe s.

(** The inverse of [encode_chars]; [None] on text that is not a complete
    padded encoding. *)
Fixpoint decode_chars (al : alphabet) (cs : list ascii) : option (list ascii) :=
  match cs with
  | [] => Some []
  | x1 :: x2 :: x3 :: x4 :: rest =>
      match sextet_of_char al x1, sextet_of_char al x2 with
      | Some (a7, a6, a5, a4, a3, a2), Some (a1, a0, b7, b6, b5, b4) =>
          let A := Ascii a0 a1 a2 a3 a4 a5 a6 a7 in
          if Ascii.eqb x4 pad then
            match rest with
            | [] =>
                if Ascii.eqb x3 pad then
                  if negb (b7 || b6 || b5 || b4) then Some [A] else None
                else
                  match sextet_of_char al x3 with
                  | Some (b3, b2, b1, b0, c7, c6) =>
                      if negb (c7 || c6)
                      then Some [A; Ascii b0 b1 b2 b3 b4 b5 b6 b7]
                      else None
                  | None => None
                  end
            | _ :: _ => None
            end
          else
            match sextet_of_char al x3, sextet_of_char al x4 with
            | Some (b3, b2, b1, b0, c7, c6), Some (c5, c4, c3, c2, c1, c0) =>
                match decode_chars al rest with
                | Some tail =>
                    Some (A :: Ascii b0 b1 b2 b3 b4 b5 b6 b7
                            :: Ascii c0 c1 c2 c3 c4 c5 c6 c7 :: tail)
                | None => None
                end
            | _, _ => None
            end
      | _, _ => None
      end
  | _ => None
  end.

Definition decode (al : alphabet) (s : string) : option string :=
  option_map Text.of_chars (decode_chars al (Text.chars s)).

(** [base64.urlsafe_b64decode(s)] on padded input. *)
Definition urlsafe_b64decode (s : string) : option string := decode urlsafe s.

(** [email.base64mime.body_encode(s)]: every 57 input bytes give one
    line of 76 characters, each line ended by a newline. *)
Fixpoint body_encode_chars (fuel : nat) (bs : list ascii) : list ascii :=
  match fuel with
  | O => []
  | S fuel' =>
      match bs with
      | [] => []
      | _ :: _ =>
          encode_chars standard (firstn 57 bs) ++ [Text.NL]
          ++ body_encode_chars fuel' (skipn 57 bs)
      end
  end.

Definition body_encode (s : string) : string :=
  Text.of_chars (body_encode_chars (String.length s) (Text.chars s)).

End Base64.

(* ===================================================================== *)
(** ** Exceptions *)
(* ===================================================================== *)

(** The exceptions the program can see.  [KeyError] and [AttributeError]
    are raised by the program's own dictionary and attribute accesses;
    everything a library or a vendor SDK raises is a [LibraryError]. *)
Inductive exn : Type :=
| KeyError (key : string)
| AttributeError (attribute : string)
| LibraryError (origin : string) (summary : string).

(** The outcome of a call: a value, or a raised exception. *)
Inductive Exc (A : Type) : Type :=
| Ok (a : A)
| Raise (e : exn).
Arguments Ok {A} a.
Arguments Raise {A} e.

Definition exc_bind {A B} (x : Exc A) (k : A -> Exc B) : Exc B :=
  match x with
  | Ok a => k a
  | Raise e => Raise e
  end.

Declare Scope exc_scope.
Delimit Scope exc_scope with exc.
Notation "x <- c1 ;; c2" := (exc_bind c1 (fun x => c2))
  (at level 100, c1 at next level, right associativity) : exc_scope.

(** Run [f] on every element in order; the first exception stops the run. *)
Fixpoint exc_map {A B} (f : A -> Exc B) (l : list A) : Exc (list B) :=
  match l with
  | [] => Ok []
  | a :: rest =>
      (b <- f a ;; bs <- exc_map f rest ;; Ok (b :: bs))%exc
  end.

(* ===================================================================== *)
(** ** The world the program runs in *)
(* ===================================================================== *)

(** A JSON document as [json.loads] returns it (numbers are integers
    here). *)
#[local] Unset Elimination Schemes.
Inductive json : Type :=
| JNull
| JBool (b : bool)
| JInt (z : Z)
| JString (s : string)
| JArray (items : list json)
| JObject (fields : list (string * json)).
#[local] Set Elimination Schemes.

(** A Snowflake connection object, named by its identity. *)
Definition conn : Type := nat.

(** What the program writes to standard output. *)
Inductive printed : Type :=
| PText (line : string)
| PReceived (data : json)
| PReceivedBatch (data : list (gmap string string))
| PJson (parsed : json)
| PError (e : exn).

(** The calls the program makes to its collaborators, in the order it
    makes them.  A call is recorded when it is issued, whether or not it
    then raises. *)
Inductive Event : Type :=
| EvFromClientSecretsFile (path : string) (scopes : list string)
| EvRunLocalServer (port : Z)
| EvBuild (serviceName version : string)
| EvSend (userId : string) (body : gmap string string)
| EvConnect (config : list (string * string))
| EvQuery (c : conn) (sql : string)
| EvClose (c : conn)
| EvPrint (p : printed).

Record World := {
  trace : list Event;                   (* calls issued so far, oldest first *)
  draws : nat;                          (* values taken from the random generator *)
  snowflake_connection : option conn;   (* current_app.snowflake_connection *)
  open_sessions : list conn;            (* connections opened and not closed *)
  created : nat                         (* connection objects created so far *)
}.

Definition initial_world : World :=
  {| trace := []; draws := 0; snowflake_connection := None;
     open_sessions := []; created := 0 |}.

(** The behaviour of everything outside the program.  Each collaborator
    answers from the calls issued so far (the last one being the call it
    answers). *)
Record Env := {
  (* the k-th value random.randrange(sys.maxsize) returns in this process *)
  randrange : nat -> N;
  (* the email policy on header values the folding model leaves out *)
  fold_other : string -> string -> Exc string;
  (* InstalledAppFlow.from_client_secrets_file, flow.run_local_server and
     googleapiclient.discovery.build: [Some e] when the call raises [e] *)
  oauth_from_client_secrets_file : list Event -> option exn;
  oauth_run_local_server : list Event -> option exn;
  gmail_build : list Event -> option exn;
  (* service.users().messages().send(...).execute(): the response *)
  gmail_send : list Event -> Exc (gmap string string);
  (* snowflake.connector.connect with the keyword arguments of config *)
  snowflake_connect : list Event -> option exn;
  (* connection.cursor(), cursor.execute(sql) and
     cursor.fetch_pandas_all().to_json(orient='index'): the JSON text *)
  snowflake_query : list Event -> Exc string;
  (* json.loads *)
  json_loads : string -> Exc json
}.

(** Computations that change the world and may raise. *)
Definition M (A : Type) : Type := World -> Exc A * World.

Definition ret {A} (a : A) : M A := fun w => (Ok a, w).
Definition raise {A} (e : exn) : M A := fun w => (Raise e, w).
Definition bind {A B} (m : M A) (k : A -> M B) : M B :=
  fun w =>
    match m w with
    | (Ok a, w') => k a w'
    | (Raise e, w') => (Raise e, w')
    end.
Definition lift {A} (x : Exc A) : M A := fun w => (x, w).

Declare Scope m_scope.
Delimit Scope m_scope with M.
Notation "x <- c1 ;; c2" := (bind c1 (fun x => c2))
  (at level 100, c1 at next level, right associativity) : m_scope.
Notation "c1 ;;; c2" := (bind c1 (fun _ => c2))
  (at level 100, right associativity) : m_scope.

(** The world after one more call has been issued. *)
Definition log (w : World) (ev : Event) : World :=
  {| trace := trace w ++ [ev]; draws := draws w;
     snowflake_connection := snowflake_connection w;
     open_sessions := open_sessions w; created := created w |}.

Definition emit (ev : Event) : M unit := fun w => (Ok tt, log w ev).

Definition print (p : printed) : M unit := emit (EvPrint p).

(** A call to a collaborator that returns nothing of interest. *)
Definition call (ev : Event) (answer : list Event -> option exn) : M unit :=
  (emit ev ;;;
   fun w => match answer (trace w) with
            | None => (Ok tt, w)
            | Some e => (Raise e, w)
            end)%M.

(** A call to a collaborator that returns a value. *)
Definition ask {A} (ev : Event) (answer : list Event -> Exc A) : M A :=
  (emit ev ;;; fun w => (answer (trace w), w))%M.

(** [random.randrange(sys.maxsize)] *)
Definition advance (w : World) : World :=
  {| trace := trace w; draws := S (draws w);
     snowflake_connection := snowflake_connection w;
     open_sessions := open_sessions w; created := created w |}.

Definition draw (E : Env) : M N :=
  fun w => (Ok (randrange E (draws w)), advance w).

(** [d[key]] *)
Definition getitem (d : gmap string string) (key : string) : M string :=
  match d !! key with
  | Some v => ret v
  | None => raise (KeyError key)
  end.

(** [for x in items: body(x)] *)
Fixpoint for_each {A} (items : list A) (body : A -> M unit) : M unit :=
  match items with
  | [] => ret tt
  | x :: rest => (body x ;;; for_each rest body)%M
  end.

(** [zip(a, b, c)]: stops at the end of the shortest sequence. *)
Fixpoint zip3 {A B C} (a : list A) (b : list B) (c : list C) : list (A * B * C) :=
  match a, b, c with
  | x :: a', y :: b', z :: c' => (x, y, z) :: zip3 a' b' c'
  | _, _, _ => []
  end.

(* ===================================================================== *)
(** ** The [email] package, as far as [create_message] exercises it *)
(* ===================================================================== *)

(** Model of [email.mime.multipart.MIMEMultipart], [email.mime.text.MIMEText]
    and [Message.as_bytes()] under the default [compat32] policy (CPython
    3.11).  Messages have the two-level shape [create_message] builds: a
    multipart container holding text parts. *)
Module Email.
Import Text.

Definition dquote : string := String "034"%char "".

Record Part := {
  part_headers : list (string * string);
  part_payload : string
}.

Record Message := {
  headers : list (string * string);
  parts : list Part
}.

(** [MIMEMultipart(subtype)]: no boundary parameter yet, empty payload. *)
Definition MIMEMultipart (subtype : string) : Message :=
  {| headers := [("Content-Type", "multipart/" +:+ subtype);
                 ("MIME-Version", "1.0")];
     parts := [] |}.

(** [MIMEText(text, subtype)]: 7-bit text is kept as it is under charset
    us-ascii; other text is stored as the base64 form of its UTF-8
    encoding. *)
Definition MIMEText (text subtype : string) : Part :=
  if is_7bit text then
    {| part_headers :=
         [("Content-Type",
           "text/" +:+ subtype +:+ "; charset=" +:+ dquote +:+ "us-ascii" +:+ dquote);
          ("MIME-Version", "1.0");
          ("Content-Transfer-Encoding", "7bit")];
       part_payload := text |}
  else
    {| part_headers :=
         [("Content-Type",
           "text/" +:+ subtype +:+ "; charset=" +:+ dquote +:+ "utf-8" +:+ dquote);
          ("MIME-Version", "1.0");
          ("Content-Transfer-Encoding", "base64")];
       part_payload := Base64.body_encode (utf8 text) |}.

(** [message[name] = value]: appended after the existing headers. *)
Definition setitem (m : Message) (name value : string) : Message :=
  {| headers := headers m ++ [(name, value)]; parts := parts m |}.

(** [message.attach(part)] *)
Definition attach (m : Message) (p : Part) : Message :=
  {| headers := headers m; parts := parts m ++ [p] |}.

(** [message.set_boundary(b)]: the boundary parameter is added to the
    value of the Content-Type header, in place. *)
Definition set_boundary (m : Message) (b : string) : Message :=
  {| headers :=
       map (fun h : string * string =>
              if String.eqb (fst h) "Content-Type"
              then (fst h, snd h +:+ "; boundary=" +:+ dquote +:+ b +:+ dquote)
              else h)
           (headers m);
     parts := parts m |}.

(** *** Header folding ([Compat32.fold_binary], [Header.encode]) *)

(** Values made of printable ASCII characters, spaces and tabs are
    folded by the algorithm below.  Other values (non-ASCII text, which
    the library encodes as RFC 2047 words; control characters and line
    breaks, which it splits at or rejects as embedded headers) are left to
    the parameter [fold_other]. *)
Definition header_safe_char (c : ascii) : bool :=
  let n := nat_of_ascii c in
  (n =? 9) || ((32 <=? n) && (n <=? 126)).
Definition header_safe (value : string) : bool :=
  forallb header_safe_char (chars value).

Definition is_blank (c : ascii) : bool :=
  Ascii.eqb c " " || Ascii.eqb c "009".

(** A chunk is a run of folding white space followed by a run of other
    characters. *)
Definition chunk : Type := list ascii * list ascii.

(** [_ValueFormatter._ascii_split]: the value cut at its runs of blanks.
    [w] and [t] collect the chunk being read, in reverse. *)
Fixpoint chunks_go (cs w t : list ascii) : list chunk :=
  match cs with
  | [] =>
      match w, t with
      | [], [] => []
      | _, _ => [(rev w, rev t)]
      end
  | c :: rest =>
      if is_blank c then
        match t with
        | [] => chunks_go rest (c :: w) []
        | _ :: _ => (rev w, rev t) :: chunks_go rest [c] []
        end
      else chunks_go rest w (c :: t)
  end.

Definition chunks_of (value : string) : list chunk :=
  match chars value with
  | [] => []
  | c :: rest =>
      (* a value that starts with a blank has no empty first chunk *)
      chunks_go (c :: rest) [] []
  end.

Definition MAXLINELEN : nat := 78.

(** The state of a [_ValueFormatter]: the finished lines, and the
    [_Accumulator] of the line being built. *)
Record formatter := {
  f_lines : list (list ascii);
  f_current : list chunk;
  f_initial : nat
}.

Definition chunk_str (c : chunk) : list ascii := fst c ++ snd c.
Definition acc_str (cur : list chunk) : list ascii := flat_map chunk_str cur.
Definition acc_len (initial : nat) (cur : list chunk) : nat :=
  initial + length (acc_str cur).

Definition chunk_eqb (a b : chunk) : bool :=
  bool_decide (a = b).

(** [str.isspace()] on text of blanks and printable characters. *)
Definition isspace (l : list ascii) : bool :=
  match l with
  | [] => false
  | _ :: _ => forallb is_blank l
  end.

Definition append_to_last (ls : list (list ascii)) (s : list ascii)
  : list (list ascii) :=
  match rev ls with
  | [] => [s]
  | last :: before => rev before ++ [last ++ s]
  end.

(** [_ValueFormatter.newline] *)
Definition newline (f : formatter) : formatter :=
  let '(cur, end_of_line) :=
    match rev (f_current f) with
    | [] => ([], ([], []))
    | last :: before => (rev before, last)
    end in
  let cur := if chunk_eqb end_of_line ([" "%char], []) then cur
             else cur ++ [end_of_line] in
  let ls :=
    if 0 <? acc_len (f_initial f) cur then
      if (f_initial f =? 0) && isspace (acc_str cur)
         && negb (length (f_lines f) =? 0)
      then append_to_last (f_lines f) (acc_str cur)
      else f_lines f ++ [acc_str cur]
    else f_lines f in
  {| f_lines := ls; f_current := []; f_initial := 0 |}.

Definition last_char_is (ch : ascii) (l : list ascii) : bool :=
  match rev l with
  | [] => false
  | c :: _ => Ascii.eqb c ch
  end.

Definition first_char_is (ch : ascii) (l : list ascii) : bool :=
  match l with
  | [] => false
  | c :: _ => Ascii.eqb c ch
  end.

(** Whether the line can be split in front of chunk [i], for the split
    character [ch]. *)
Definition splits_at (cur : list chunk) (ch : ascii) (i : nat) : bool :=
  (is_blank ch && first_char_is ch (fst (nth i cur ([], []))))
  || last_char_is ch (snd (nth (i - 1) cur ([], []))).

(** The split point: split characters are tried in the order [;], [,],
    space, tab, and for each the chunks from the last one down to the
    second. *)
Definition find_split (cur : list chunk) : option nat :=
  let candidates := rev (seq 1 (length cur - 1)) in
  let for_char ch := List.find (splits_at cur ch) candidates in
  match for_char ";"%char with
  | Some i => Some i
  | None =>
      match for_char ","%char with
      | Some i => Some i
      | None =>
          match for_char " "%char with
          | Some i => Some i
          | None => for_char "009"%char
          end
      end
  end.

(** [_ValueFormatter._append_chunk] *)
Definition append_chunk (f : formatter) (c : chunk) : formatter :=
  let cur := f_current f ++ [c] in
  if MAXLINELEN <? acc_len (f_initial f) cur then
    match find_split cur with
    | Some i =>
        {| f_lines := f_lines f ++ [acc_str (firstn i cur)];
           f_current := skipn i cur;
           f_initial := 0 |}
    | None =>
        if 0 <? f_initial f then
          (* the header name stays on a line of its own *)
          let f' := newline f in
          let fws := match fst c with [] => [" "%char] | _ :: _ => fst c end in
          {| f_lines := f_lines f';
             f_current := f_current f' ++ [(fws, snd c)];
             f_initial := f_initial f' |}
        else
          {| f_lines := f_lines f; f_current := cur; f_initial := f_initial f |}
    end
  else {| f_lines := f_lines f; f_current := cur; f_initial := f_initial f |}.

(** [Header(value, header_name=name).encode(maxlinelen=78)] for a value
    of one line of 7-bit text. *)
Definition header_encode (name value : string) : string :=
  let f0 := {| f_lines := []; f_current := [];
               f_initial := String.length name + 2 |} in
  let f1 := fold_left append_chunk (chunks_of value) f0 in
  (* add_transition, then the closing newline of _str *)
  let f2 := newline {| f_lines := f_lines f1;
                       f_current := f_current f1 ++ [([" "%char], [])];
                       f_initial := f_initial f1 |} in
  join nl (map of_chars (f_lines f2)).

(** [policy.fold_binary(name, value)]: the header as it is written. *)
Definition fold_binary (fold_other : string -> string -> Exc string)
  (name value : string) : Exc string :=
  if header_safe value
  then Ok (name +:+ ": " +:+ header_encode name value +:+ nl)
  else fold_other name value.

(** *** The generator ([BytesGenerator.flatten]) *)

(** [_write_lines]: the payload with every line break written as a
    newline. *)
Fixpoint write_lines_chars (l : list ascii) : list ascii :=
  match l with
  | [] => []
  | c :: rest =>
      if Ascii.eqb c CR then
        NL :: match rest with
              | [] => []
              | d :: rest' =>
                  if Ascii.eqb d NL then write_lines_chars rest'
                  else write_lines_chars rest
              end
      else c :: write_lines_chars rest
  end.
Definition write_lines (payload : string) : string :=
  of_chars (write_lines_chars (chars payload)).

(** [_write_headers]: the folded headers, one after the other (the blank
    line that ends them is written by the callers below). *)
Definition write_headers (fold_other : string -> string -> Exc string)
  (hs : list (string * string)) : Exc string :=
  (folded <- exc_map (fun h => fold_binary fold_other (fst h) (snd h)) hs ;;
   Ok (join "" folded))%exc.

(** A text part flattened: headers, blank line, payload. *)
Definition flatten_part (fold_other : string -> string -> Exc string)
  (p : Part) : Exc string :=
  (hs <- write_headers fold_other (part_headers p) ;;
   Ok (hs +:+ nl +:+ write_lines (part_payload p)))%exc.

(** Whether [b] occurs in [text] as a delimiter line: the search for
    [^--b(--)?$] in multi-line mode. *)
Definition delimits (b text : string) : bool :=
  existsb (fun line => String.eqb line ("--" +:+ b)
                       || String.eqb line ("--" +:+ b +:+ "--"))
          (lines text).

Definition boundary_of_token (token : N) : string :=
  replicate_char 15 "=" +:+ zero_padded 19 token +:+ "==".

(** The candidates the loop of [_make_boundary] tries, in order: the
    boundary itself, then the boundary followed by [.0], [.1], ... *)
Fixpoint search_boundary (fuel counter : nat) (boundary b text : string) : string :=
  if negb (delimits b text) then b
  else match fuel with
       | O => b
       | S fuel' =>
           search_boundary fuel' (S counter) boundary
             (boundary +:+ "." +:+ str_of_nat counter) text
       end.

(** [_make_boundary(text)], given the drawn token.  A text of [n] lines
    holds at most [n] of the candidates, so [n] further candidates are
    enough (lemma [make_boundary_fresh]). *)
Definition make_boundary (token : N) (text : string) : string :=
  let boundary := boundary_of_token token in
  search_boundary (length (lines text)) 0 boundary boundary text.

(** [_handle_multipart], first half: the parts are flattened before the
    boundary is chosen. *)
Definition flatten_parts (fold_other : string -> string -> Exc string)
  (m : Message) : Exc (list string) :=
  exc_map (flatten_part fold_other) (parts m).

Definition boundary_for (m_texts : list string) (token : N) : string :=
  make_boundary token (join nl m_texts).

(** [_handle_multipart], second half, and [_write]: the boundary is set,
    the headers are written, then the parts between delimiter lines. *)
Definition assemble (fold_other : string -> string -> Exc string)
  (m : Message) (texts : list string) (token : N) : Exc string :=
  let boundary := boundary_for texts token in
  (hs <- write_headers fold_other (headers (set_boundary m boundary)) ;;
   Ok (hs +:+ nl
       +:+ "--" +:+ boundary +:+ nl
       +:+ join (nl +:+ "--" +:+ boundary +:+ nl) texts
       +:+ nl +:+ "--" +:+ boundary +:+ "--" +:+ nl))%exc.

(** [message.as_bytes()] when the random generator yields [token]. *)
Definition as_bytes_with (fold_other : string -> string -> Exc string)
  (m : Message) (token : N) : Exc string :=
  (texts <- flatten_parts fold_other m ;; assemble fold_other m texts token)%exc.

(** [message.as_bytes()] *)
Definition as_bytes (E : Env) (m : Message) : M string :=
  (texts <- lift (flatten_parts (fold_other E) m) ;;
   token <- draw E ;;
   lift (assemble (fold_other E) m texts token))%M.

End Email.

(* ===================================================================== *)
(** ** [src/sendEmails.py] *)
(* ===================================================================== *)

Module SendEmails.

Definition SCOPES : list string :=
  ["https://www.googleapis.com/auth/gmail.send"].

(** Lines 11 to 17 of [create_message]: the message object. *)
Definition build_message (sender to subject message_html : string)
  : Email.Message :=
  let message := Email.MIMEMultipart "alternative" in
  let message := Email.setitem message "to" to in
  let message := Email.setitem message "from" sender in
  let message := Email.setitem message "subject" subject in
  let message := Email.setitem message "bcc" "6939709@bcc.hubspot.com" in
  let part_html := Email.MIMEText message_html "html" in
  Email.attach message part_html.

Definition create_message (E : Env) (sender to subject message_html : string)
  : M (gmap string string) :=
  let message := build_message sender to subject message_html in
  (bytes <- Email.as_bytes E message ;;
   ret ({[ "raw" := Base64.urlsafe_b64encode bytes ]} : gmap string string))%M.

(** One iteration of the loop of [send_message]. *)
Definition send_one (E : Env) (sender : string)
  (item : string * string * string) : M unit :=
  let '(body, subject, to_email) := item in
  (message <- create_message E sender to_email subject body ;;
   result <- ask (EvSend "me" message) (gmail_send E) ;;
   id <- getitem result "id" ;;
   print (PText ("Message Id: " +:+ id +:+ " - sent to " +:+ to_email +:+ ".")))%M.

Definition send_message (E : Env)
  (email_bodies email_subjects to_emails : list string) : M unit :=
  (call (EvFromClientSecretsFile "credentials.json" SCOPES)
        (oauth_from_client_secrets_file E) ;;;
   call (EvRunLocalServer 0) (oauth_run_local_server E) ;;;
   call (EvBuild "gmail" "v1") (gmail_build E) ;;;
   let sender := "cameron.michie@ably.com" in
   for_each (zip3 email_bodies email_subjects to_emails) (send_one E sender))%M.

End SendEmails.

(* ===================================================================== *)
(** ** [src/send-emails.py] *)
(* ===================================================================== *)

Module SendEmailsScript.

Definition SCOPES : list string :=
  ["https://www.googleapis.com/auth/gmail.send"].

Definition build_message (sender to subject message_html : string)
  : Email.Message :=
  let message := Email.MIMEMultipart "alternative" in
  let message := Email.setitem message "to" to in
  let message := Email.setitem message "from" sender in
  let message := Email.setitem message "subject" subject in
  let part_html := Email.MIMEText message_html "html" in
  Email.attach message part_html.

Definition create_message (E : Env) (sender to subject message_html : string)
  : M (gmap string string) :=
  let message := build_message sender to subject message_html in
  (bytes <- Email.as_bytes E message ;;
   ret ({[ "raw" := Base64.urlsafe_b64encode bytes ]} : gmap string string))%M.

(** The body of the test message of [main], lines 27 to 35. *)
Definition message_html : string :=
  Text.nl
  +:+ "    <html>" +:+ Text.nl
  +:+ "        <body>" +:+ Text.nl
  +:+ "            <p>Hi,<br>" +:+ Text.nl
  +:+ "               This is a <b>test email</b> sent from a Python script using the Gmail API with <i>HTML formatting</i>." +:+ Text.nl
  +:+ "            </p>" +:+ Text.nl
  +:+ "        </body>" +:+ Text.nl
  +:+ "    </html>" +:+ Text.nl
  +:+ "    ".

Definition main (E : Env) : M unit :=
  (call (EvFromClientSecretsFile "credentials.json" SCOPES)
        (oauth_from_client_secrets_file E) ;;;
   call (EvRunLocalServer 0) (oauth_run_local_server E) ;;;
   call (EvBuild "gmail" "v1") (gmail_build E) ;;;
   let sender := "cameron.michie@ably.com" in
   let to := "cameron.oscar.michie@gmail.com" in
   let subject := "Hello from Python!" in
   message <- create_message E sender to subject message_html ;;
   result <- ask (EvSend "me" message) (gmail_send E) ;;
   id <- getitem result "id" ;;
   print (PText ("Message Id: " +:+ id)))%M.

End SendEmailsScript.

(* ===================================================================== *)
(** ** [src/archive/snowflakeConnector.py] *)
(* ===================================================================== *)

Module SnowflakeConnector.

Definition with_connection (w : World) (c : option conn) : World :=
  {| trace := trace w; draws := draws w; snowflake_connection := c;
     open_sessions := open_sessions w; created := created w |}.

(** [hasattr(current_app, 'snowflake_connection')] *)
Definition hasattr_connection : M bool :=
  fun w => (Ok (bool_decide (snowflake_connection w <> None)), w).

(** [current_app.snowflake_connection] *)
Definition getattr_connection : M conn :=
  fun w => match snowflake_connection w with
           | Some c => (Ok c, w)
           | None => (Raise (AttributeError "snowflake_connection"), w)
           end.

(** [current_app.snowflake_connection = c] *)
Definition setattr_connection (c : conn) : M unit :=
  fun w => (Ok tt, with_connection w (Some c)).

(** [delattr(current_app, 'snowflake_connection')] *)
Definition delattr_connection : M unit :=
  fun w => match snowflake_connection w with
           | Some _ => (Ok tt, with_connection w None)
           | None => (Raise (AttributeError "snowflake_connection"), w)
           end.

(** [snowflake.connector.connect] with the keyword arguments [config]:
    a new connection object with an open session, unless the call
    raises. *)
Definition connect (E : Env) (config : list (string * string)) : M conn :=
  (emit (EvConnect config) ;;;
   fun w => match snowflake_connect E (trace w) with
            | Some e => (Raise e, w)
            | None =>
                (Ok (created w),
                 {| trace := trace w; draws := draws w;
                    snowflake_connection := snowflake_connection w;
                    open_sessions := open_sessions w ++ [created w];
                    created := S (created w) |})
            end)%M.

(** [connection.close()]: the connector ends the session and keeps its
    own errors to itself. *)
Definition close (c : conn) : M unit :=
  (emit (EvClose c) ;;;
   fun w => (Ok tt,
             {| trace := trace w; draws := draws w;
                snowflake_connection := snowflake_connection w;
                open_sessions :=
                  List.filter (fun c' => negb (c' =? c)) (open_sessions w);
                created := created w |}))%M.

Definition config : list (string * string) :=
  [("authenticator", "externalbrowser");
   ("user", "CAMERON.MICHIE@ABLY.COM");
   ("account", "hk06212.eu-west-1");
   ("database", "ABLY_ANALYTICS_PRODUCTION");
   ("schema", "MODELLED_COMMERCIAL");
   ("warehouse", "VW_CLIENTS_PRODUCTION")].

Definition get_snowflake_connection (E : Env) : M conn :=
  (present <- hasattr_connection ;;
   (if negb present then
      (c <- connect E config ;;
       setattr_connection c ;;;
       print (PText "New Snowflake connection established."))
    else ret tt) ;;;
   getattr_connection)%M.

Definition fetch_data_as_json (E : Env) (sql_query : string) : M string :=
  (connection <- get_snowflake_connection E ;;
   ask (EvQuery connection sql_query) (snowflake_query E))%M.

(** [try: body / except Exception as e: handler(e)] *)
Definition try_except {A} (body : M A) (handler : exn -> M A) : M A :=
  fun w => match body w with
           | (Ok a, w') => (Ok a, w')
           | (Raise e, w') => handler e w'
           end.

(** [get_sql] is the result of calling the query provider: the SQL text,
    or the exception it raises. *)
Definition process_snowflake_query (E : Env) (get_sql : Exc string) : M json :=
  try_except
    (sql <- lift get_sql ;;
     json_data <- fetch_data_as_json E sql ;;
     parsed_data <- lift (json_loads E json_data) ;;
     print (PJson parsed_data) ;;;
     ret parsed_data)%M
    (fun e =>
       print (PError e) ;;;
       connection <- getattr_connection ;;
       close connection ;;;
       delattr_connection ;;;
       raise e)%M.

End SnowflakeConnector.

(* ===================================================================== *)
(** ** The Flask applications *)
(* ===================================================================== *)

Inductive Method : Type := GET | POST.


Inductive ResponseBody : Type :=
| RText (text : string)
| RJson (document : json).

Record Response := { status : Z; body : ResponseBody }.

(** A rule of the URL map: path, accepted methods, endpoint name. *)
Definition rule : Type := string * list Method * string.



(** [src/archive/app.py] *)
Module ArchiveApp.
Section handlers.
Variable E : Env.
(** The SQL text [queries.info()] returns. *)
Variable info : string.

Definition url_map : list rule :=
  [("/run_script", [POST], "run_script");
   ("/send_emails", [POST], "send_emails");
   ("/", [GET], "home")].

Definition run_script (data : json) : M Response :=
  (print (PReceived data) ;;;
   dashboard_data <- SnowflakeConnector.process_snowflake_query E (Ok info) ;;
   ret {| status := 200; body := RJson dashboard_data |})%M.

(** The loop of [send_emails]: one descriptor after the other, three
    lookups each, every value appended to its list. *)
Fixpoint collect (allEmailData : list (gmap string string))
  (emailBody emailSubjects emailTo : list string)
  : M (list string * list string * list string) :=
  match allEmailData with
  | [] => ret (emailBody, emailSubjects, emailTo)
  | emailData :: rest =>
      (html <- getitem emailData "emailHtml" ;;
       let emailBody := emailBody ++ [html] in
       subject <- getitem emailData "emailSubject" ;;
       let emailSubjects := emailSubjects ++ [subject] in
       to <- getitem emailData "USER_EMAIL" ;;
       let emailTo := emailTo ++ [to] in
       collect rest emailBody emailSubjects emailTo)%M
  end.

Definition confirmation : Response :=
  {| status := 200;
     body := RJson (JObject
               [("messaga",
                 JString "Emails received and processed successfully!")]) |}.

Definition send_emails (allEmailData : list (gmap string string)) : M Response :=
  (print (PReceivedBatch allEmailData) ;;;
   lists <- collect allEmailData [] [] [] ;;
   let '(emailBody, emailSubjects, emailTo) := lists in
   SendEmails.send_message E emailBody emailSubjects emailTo ;;;
   ret confirmation)%M.

Definition home : M Response :=
  ret {| status := 200; body := RText "Welcome to the Flask Server!" |}.

End handlers.
End ArchiveApp.

(** [src/app.py] *)
Module App.
Section handlers.
Variable E : Env.
Variable info : string.

Definition url_map : list rule :=
  [("/run_script", [POST], "run_script");
   ("/", [GET], "home")].

Definition run_script (data : json) : M Response :=
  (print (PReceived data) ;;;
   dashboard_data <- SnowflakeConnector.process_snowflake_query E (Ok info) ;;
   ret {| status := 200; body := RJson dashboard_data |})%M.

Definition home : M Response :=
  ret {| status := 200; body := RText "Welcome to the Flask Server!" |}.

End handlers.
End App.

(* ===================================================================== *)
(** ** Runs of the process *)
(* ===================================================================== *)




(** The send calls issued so far: the bodies handed to the mail service. *)
Definition send_calls (w : World) : list (gmap string string) :=
  flat_map (fun ev => match ev with EvSend _ body => [body] | _ => [] end)
           (trace w).

(** The authorization calls issued so far. *)
Definition is_authorization (ev : Event) : bool :=
  match ev with
  | EvFromClientSecretsFile _ _ | EvRunLocalServer _ | EvBuild _ _ => true
  | _ => false
  end.

(** ** Reference environments, for the examples *)

(** Every collaborator answers; the mail service names the message after
    the number of calls seen; the random generator counts up from
    [first_token]. *)
Definition cooperative (first_token : N) : Env :=
  {| randrange := fun k => (first_token + N.of_nat k)%N;
     fold_other := fun _ _ => Raise (LibraryError "email" "HeaderParseError");
     oauth_from_client_secrets_file := fun _ => None;
     oauth_run_local_server := fun _ => None;
     gmail_build := fun _ => None;
     gmail_send := fun t => Ok {[ "id" := Text.str_of_nat (length t) ]};
     snowflake_connect := fun _ => None;
     snowflake_query := fun _ => Ok "{}";
     json_loads := fun _ => Ok (JObject []) |}.

(* ===================================================================== *)
(** ** Vocabulary of the statements *)
(* ===================================================================== *)

Import Text Base64 SnowflakeConnector.

(** Pure form of create_message *)
Definition create_message_with (fo : string -> string -> Exc string)
  (sender to subject message_html : string) (token : N) : Exc (gmap string string) :=
  (bytes <- Email.as_bytes_with fo (SendEmails.build_message sender to subject message_html) token ;;
   Ok ({[ "raw" := Base64.urlsafe_b64encode bytes ]} : gmap string string))%exc.

Definition text_part_headers (seven_bit : bool) : string :=
  if seven_bit
  then "Content-Type: text/html; charset=" +:+ Email.dquote +:+ "us-ascii" +:+ Email.dquote +:+ Text.nl
       +:+ "MIME-Version: 1.0" +:+ Text.nl +:+ "Content-Transfer-Encoding: 7bit" +:+ Text.nl
  else "Content-Type: text/html; charset=" +:+ Email.dquote +:+ "utf-8" +:+ Email.dquote +:+ Text.nl
       +:+ "MIME-Version: 1.0" +:+ Text.nl +:+ "Content-Transfer-Encoding: base64" +:+ Text.nl.

Definition html_part_text (html : string) : string :=
  text_part_headers (Text.is_7bit html) +:+ Text.nl
  +:+ Email.write_lines (Email.part_payload (Email.MIMEText html "html")).

Definition builds (E : Env) (sender : string) (d : nat)
  (item : string * string * string) (call : gmap string string) : Prop :=
  let '(body, subject, to_email) := item in
  create_message_with (fold_other E) sender to_email subject body (randrange E d) = Ok call.

Inductive sent_in_order (E : Env) (sender : string)
  : nat -> list (string * string * string) -> list (gmap string string) -> Prop :=
| sent_nil d : sent_in_order E sender d [] []
| sent_cons d item items call calls :
    builds E sender d item call ->
    sent_in_order E sender (S d) items calls ->
    sent_in_order E sender d (item :: items) (call :: calls).

Definition sent_line (id to_email : string) : Event :=
  EvPrint (PText ("Message Id: " +:+ id +:+ " - sent to " +:+ to_email +:+ ".")).

Definition is_digit (c : ascii) : bool :=
  let n := nat_of_ascii c in (48 <=? n) && (n <=? 57).

(** ** Decimal text *)

Definition value (s : string) : option N :=
  option_map N.of_uint (NilEmpty.uint_of_string s).

(** ** Boundaries *)

Definition base_char (c : ascii) : bool := is_digit c || Ascii.eqb c "=".
Definition boundary_char (c : ascii) : bool := base_char c || Ascii.eqb c ".".

(** ** The boundary is fresh *)



Definition well_formed (al : alphabet) : Prop :=
  forall s, sextet_of_char al (char_of_sextet al s) = Some s
            /\ Ascii.eqb (char_of_sextet al s) pad = false.

Definition not_blank (c : ascii) : bool := negb (Email.is_blank c).

Definition multipart_value (b : string) : string :=
  "multipart/alternative; boundary=" +:+ Email.dquote +:+ b +:+ Email.dquote.

(** The bytes of a message: the header block, then the blank line and the
    part between its delimiter lines. *)
Definition message_bytes (boundary header_lines part : string) : string :=
  "Content-Type: multipart/alternative;" +:+ nl
  +:+ " boundary=" +:+ Email.dquote +:+ boundary +:+ Email.dquote +:+ nl
  +:+ "MIME-Version: 1.0" +:+ nl
  +:+ header_lines
  +:+ nl
  +:+ "--" +:+ boundary +:+ nl
  +:+ part
  +:+ nl +:+ "--" +:+ boundary +:+ "--" +:+ nl.

Definition container (user_headers : list (string * string)) (part : Email.Part)
  : Email.Message :=
  {| Email.headers := ("Content-Type", "multipart/alternative")
                      :: ("MIME-Version", "1.0") :: user_headers;
     Email.parts := [part] |}.

Definition lower_case_names (hs : list (string * string)) : Prop :=
  Forall (fun h => String.eqb (fst h) "Content-Type" = false) hs.

(** ** The output of [create_message] *)

Definition charset_of (html : string) : string :=
  if is_7bit html then "us-ascii" else "utf-8".
Definition transfer_encoding_of (html : string) : string :=
  if is_7bit html then "7bit" else "base64".
Definition payload_of (html : string) : string :=
  Email.write_lines (if is_7bit html then html else Base64.body_encode (utf8 html)).

Definition bcc_address : string := "6939709@bcc.hubspot.com".
Definition bcc_line : string := "bcc: " +:+ bcc_address +:+ nl.

(** The bytes a returned message stands for. *)
Definition decoded_output (r : Exc (gmap string string)) : option string :=
  match r with
  | Ok out =>
      match out !! "raw" with
      | Some raw => Base64.urlsafe_b64decode raw
      | None => None
      end
  | Raise _ => None
  end.

Definition first_output : gmap string string :=
  match fst (SendEmails.create_message (cooperative 0)
               "cameron.michie@ably.com" "a@x.com" "Hi" "<p>hi</p>" initial_world) with
  | Ok out => out
  | Raise _ => ∅
  end.

Definition second_output : gmap string string :=
  match fst (SendEmails.create_message (cooperative 0)
               "cameron.michie@ably.com" "a@x.com" "Hi" "<p>hi</p>"
               (advance initial_world)) with
  | Ok out => out
  | Raise _ => ∅
  end.

(** ** Environments that cooperate *)

Definition authorizes (E : Env) : Prop :=
  forall t, oauth_from_client_secrets_file E t = None
            /\ oauth_run_local_server E t = None
            /\ gmail_build E t = None.

Definition delivers (E : Env) : Prop :=
  forall t, exists result id, gmail_send E t = Ok result /\ result !! "id" = Some id.

Definition foldable (E : Env) (name value : string) : Prop :=
  exists line, Email.fold_binary (fold_other E) name value = Ok line.

Definition sendable (E : Env) (item : string * string * string) : Prop :=
  let '(_, subject, to_email) := item in
  foldable E "to" to_email /\ foldable E "subject" subject.

Definition sender : string := "cameron.michie@ably.com".

Definition authorization_calls : list Event :=
  [EvFromClientSecretsFile "credentials.json" SendEmails.SCOPES;
   EvRunLocalServer 0; EvBuild "gmail" "v1"].

Definition authorized (w : World) : World :=
  log (log (log w (EvFromClientSecretsFile "credentials.json" SendEmails.SCOPES))
           (EvRunLocalServer 0))
      (EvBuild "gmail" "v1").

(** The mail service of the example accepts one message and rejects the
    second. *)
Definition second_send_fails : Env :=
  {| randrange := randrange (cooperative 7);
     fold_other := fold_other (cooperative 7);
     oauth_from_client_secrets_file := fun _ => None;
     oauth_run_local_server := fun _ => None;
     gmail_build := fun _ => None;
     gmail_send := fun t =>
       if length (send_calls {| trace := t; draws := 0; snowflake_connection := None;
                                open_sessions := []; created := 0 |}) =? 2
       then Raise (LibraryError "googleapiclient" "HttpError 500")
       else Ok {[ "id" := Text.str_of_nat (length t) ]};
     snowflake_connect := fun _ => None;
     snowflake_query := fun _ => Ok "{}";
     json_loads := fun _ => Ok (JObject []) |}.

Definition world_after_first : World :=
  snd (SendEmails.send_message second_send_fails ["<p>one</p>"] ["First"] ["a@x.com"]
         initial_world).

Definition second_message : gmap string string :=
  match fst (SendEmails.create_message second_send_fails sender "b@x.com" "Second"
               "<p>two</p>" world_after_first) with
  | Ok message => message
  | Raise _ => ∅
  end.

(** ** The request handlers *)

(** A descriptor lacks one of the keys the handler reads. *)
Definition lacks_key (d : gmap string string) : Prop :=
  d !! "emailHtml" = None \/ d !! "emailSubject" = None \/ d !! "USER_EMAIL" = None.

Definition descriptor_keys : list string :=
  ["emailHtml"; "emailSubject"; "USER_EMAIL"].

(** A batch whose second descriptor has no recipient. *)
Definition incomplete_batch : list (gmap string string) :=
  [ {[ "emailHtml" := "<p>one</p>"; "emailSubject" := "First"; "USER_EMAIL" := "a@x.com" ]};
    {[ "emailHtml" := "<p>two</p>"; "emailSubject" := "Second" ]} ].




(** ** The Snowflake client *)

(** The world after [connect] has returned a new connection. *)
Definition connected (w : World) : World :=
  {| trace := trace w ++ [EvConnect config]; draws := draws w;
     snowflake_connection := snowflake_connection w;
     open_sessions := open_sessions w ++ [created w];
     created := S (created w) |}.

(** The world after [get_snowflake_connection] has created the
    connection. *)
Definition established (w : World) : World :=
  log (with_connection (connected w) (Some (created w)))
      (EvPrint (PText "New Snowflake connection established.")).

(** The world after [close]. *)
Definition closed (w : World) (c : conn) : World :=
  {| trace := trace w ++ [EvClose c]; draws := draws w;
     snowflake_connection := snowflake_connection w;
     open_sessions := List.filter (fun c' => negb (c' =? c)) (open_sessions w);
     created := created w |}.

(** The world after the handler of [process_snowflake_query] has run on a
    world that holds connection [c]. *)
Definition discarded (w : World) (c : conn) (e : exn) : World :=
  with_connection (closed (log w (EvPrint (PError e))) c) None.


(** The warehouse refuses every connection. *)
Definition unreachable_warehouse : Env :=
  {| randrange := randrange (cooperative 7);
     fold_other := fold_other (cooperative 7);
     oauth_from_client_secrets_file := fun _ => None;
     oauth_run_local_server := fun _ => None;
     gmail_build := fun _ => None;
     gmail_send := gmail_send (cooperative 7);
     snowflake_connect := fun _ => Some (LibraryError "snowflake" "OperationalError");
     snowflake_query := fun _ => Ok "{}";
     json_loads := fun _ => Ok (JObject []) |}.

(** ** The connection is created once *)


(** ** What the two clients leave alone *)

(** Calls to the warehouse. *)
Definition warehouse_event (ev : Event) : bool :=
  match ev with
  | EvConnect _ | EvQuery _ _ | EvClose _ => true
  | _ => false
  end.

(** Calls to the mail service and its authorization. *)
Definition mail_event (ev : Event) : bool :=
  match ev with
  | EvFromClientSecretsFile _ _ | EvRunLocalServer _ | EvBuild _ _ | EvSend _ _ => true
  | _ => false
  end.

(** [w'] comes from [w] by issuing calls that all satisfy [allowed]. *)
Definition extends (allowed : Event -> bool) (w w' : World) : Prop :=
  exists tail, trace w' = trace w ++ tail /\ forallb allowed tail = true.

(** The state of the warehouse client is the same in [w] and [w']. *)
Definition same_warehouse (w w' : World) : Prop :=
  snowflake_connection w' = snowflake_connection w
  /\ open_sessions w' = open_sessions w
  /\ created w' = created w.

Definition not_warehouse (ev : Event) : bool := negb (warehouse_event ev).

Definition not_mail (ev : Event) : bool := negb (mail_event ev).

(** ** Authorization *)


(** The mail service answers without an [id] from its second call on. *)
Definition second_response_without_id : Env :=
  {| randrange := randrange (cooperative 7);
     fold_other := fold_other (cooperative 7);
     oauth_from_client_secrets_file := fun _ => None;
     oauth_run_local_server := fun _ => None;
     gmail_build := fun _ => None;
     gmail_send := fun t =>
       if length (send_calls {| trace := t; draws := 0; snowflake_connection := None;
                                open_sessions := []; created := 0 |}) =? 2
       then Ok {[ "threadId" := "18c" ]}
       else Ok {[ "id" := Text.str_of_nat (length t) ]};
     snowflake_connect := fun _ => None;
     snowflake_query := fun _ => Ok "{}";
     json_loads := fun _ => Ok (JObject []) |}.

Definition world_after_one : World :=
  snd (SendEmails.send_message second_response_without_id ["<p>one</p>"] ["First"]
         ["a@x.com"] initial_world).

Definition second_call : gmap string string :=
  match fst (SendEmails.create_message second_response_without_id sender "b@x.com"
               "Second" "<p>two</p>" world_after_one) with
  | Ok message => message
  | Raise _ => ∅
  end.

(** A subject that carries a second header line. *)
Definition smuggled_subject : string :=
  "Second" +:+ nl +:+ "Bcc: x@y.com".

Definition world_after_first_ok : World :=
  snd (SendEmails.send_message (cooperative 7) ["<p>one</p>"] ["First"] ["a@x.com"]
         initial_world).

(** ** More on [send_emails] *)

(** The first of the three keys a descriptor lacks, in the order the
    handler reads them. *)
Definition first_missing (d : gmap string string) : option string :=
  match d !! "emailHtml", d !! "emailSubject", d !! "USER_EMAIL" with
  | None, _, _ => Some "emailHtml"
  | Some _, None, _ => Some "emailSubject"
  | Some _, Some _, None => Some "USER_EMAIL"
  | Some _, Some _, Some _ => None
  end.

(** The part a 7-bit body is written as. *)
Definition ascii_part (payload : string) : string :=
  "Content-Type: text/html; charset=" +:+ Email.dquote +:+ "us-ascii" +:+ Email.dquote +:+ nl
  +:+ "MIME-Version: 1.0" +:+ nl
  +:+ "Content-Transfer-Encoding: 7bit" +:+ nl
  +:+ nl +:+ payload.

Definition hello_message : gmap string string :=
  match fst (SendEmails.create_message (cooperative 7) "cameron.michie@ably.com"
               "a@x.com" "Hello there" "<p>hi</p>" initial_world) with
  | Ok out => out
  | Raise _ => ∅
  end.

(** ** The encoded output *)

(** The characters of URL-safe base64 text: letters, digits, [-], [_] and
    the padding [=]. *)
Definition urlsafe_char (c : ascii) : bool :=
  let n := nat_of_ascii c in
  ((65 <=? n) && (n <=? 90)) || ((97 <=? n) && (n <=? 122))
  || ((48 <=? n) && (n <=? 57))
  || Ascii.eqb c "-" || Ascii.eqb c "_" || Ascii.eqb c "=".

(** ** Bodies that are not 7-bit *)

(** The text with its newlines taken out. *)
Definition without_newlines (s : string) : string :=
  of_chars (List.filter (fun c => negb (Ascii.eqb c NL)) (chars s)).

(** The characters of standard base64 text. *)
Definition standard_char (c : ascii) : bool :=
  let n := nat_of_ascii c in
  ((65 <=? n) && (n <=? 90)) || ((97 <=? n) && (n <=? 122))
  || ((48 <=? n) && (n <=? 57))
  || Ascii.eqb c "+" || Ascii.eqb c "/" || Ascii.eqb c "=".

(** The part a body that is not 7-bit is written as. *)
Definition utf8_part (payload : string) : string :=
  "Content-Type: text/html; charset=" +:+ Email.dquote +:+ "utf-8" +:+ Email.dquote +:+ nl
  +:+ "MIME-Version: 1.0" +:+ nl
  +:+ "Content-Transfer-Encoding: base64" +:+ nl
  +:+ nl +:+ payload.

(** A body with an e acute (code point 233). *)
Definition cafe_body : string := "<p>caf" +:+ String "233"%char "" +:+ "</p>".

Definition cafe_message : gmap string string :=
  match fst (SendEmails.create_message (cooperative 7) "cameron.michie@ably.com"
               "a@x.com" "Hello there" cafe_body initial_world) with
  | Ok out => out
  | Raise _ => ∅
  end.

(** ** The life of the warehouse connection *)


(** The outcome of the handler of [process_snowflake_query]. *)
Definition handled {A} (e : exn) (w : World) : Exc A * World :=
  match snowflake_connection w with
  | Some c => (Raise e, discarded w c e)
  | None => (Raise (AttributeError "snowflake_connection"), log w (EvPrint (PError e)))
  end.


Definition is_connect (ev : Event) : bool :=
  match ev with EvConnect _ => true | _ => false end.

(** ** The script [send-emails.py] *)

(** The HTML part and the header lines of the test message. *)
Definition test_part : string := ascii_part SendEmailsScript.message_html.

Definition test_headers : string :=
  "to: cameron.oscar.michie@gmail.com" +:+ nl
  +:+ "from: cameron.michie@ably.com" +:+ nl
  +:+ "subject: Hello from Python!" +:+ nl.

(** The test message, for the random token drawn. *)
Definition test_message (token : N) : gmap string string :=
  {[ "raw" := Base64.urlsafe_b64encode
                (message_bytes (Email.make_boundary token test_part)
                   test_headers test_part) ]}.

(* ===================================================================== *)
(** * Properties *)
(* ===================================================================== *)

Lemma flatten_html_part fo html :
  Email.flatten_part fo (Email.MIMEText html "html") = Ok (html_part_text html).
Proof.
  unfold html_part_text, Email.MIMEText. destruct (Text.is_7bit html); reflexivity.
Qed.

Lemma flatten_parts_build_message fo sender to subject html :
  Email.flatten_parts fo (SendEmails.build_message sender to subject html)
  = Ok [html_part_text html].
Proof.
  unfold Email.flatten_parts. cbn [SendEmails.build_message Email.attach Email.parts
    Email.setitem Email.MIMEMultipart app exc_map].
  rewrite flatten_html_part. reflexivity.
Qed.

Lemma create_message_run E sender to subject html w :
  SendEmails.create_message E sender to subject html w
  = (create_message_with (fold_other E) sender to subject html (randrange E (draws w)),
     advance w).
Proof.
  unfold SendEmails.create_message, create_message_with, Email.as_bytes,
    Email.as_bytes_with, bind, lift, draw, ret.
  rewrite flatten_parts_build_message. cbn [exc_bind].
  destruct (Email.assemble _ _ _ _); reflexivity.
Qed.

Lemma send_one_run E sender body subject to_email w :
  SendEmails.send_one E sender (body, subject, to_email) w
  = match create_message_with (fold_other E) sender to_email subject body
            (randrange E (draws w)) with
    | Raise e => (Raise e, advance w)
    | Ok message =>
        let w1 := log (advance w) (EvSend "me" message) in
        match gmail_send E (trace w1) with
        | Raise e => (Raise e, w1)
        | Ok result =>
            match result !! "id" with
            | None => (Raise (KeyError "id"), w1)
            | Some id => (Ok tt, log w1 (sent_line id to_email))
            end
        end
    end.
Proof.
  unfold SendEmails.send_one, bind. rewrite create_message_run.
  destruct (create_message_with _ _ _ _ _ _) as [message|e]; [|reflexivity].
  unfold ask, bind, emit. cbn.
  destruct (gmail_send E _) as [result|e]; [|reflexivity].
  unfold getitem. destruct (result !! "id"); reflexivity.
Qed.

Lemma send_calls_log w ev :
  send_calls (log w ev)
  = send_calls w ++ match ev with EvSend _ body => [body] | _ => [] end.
Proof. unfold send_calls, log. cbn. rewrite flat_map_app. cbn. rewrite app_nil_r. reflexivity. Qed.

(** A successful iteration issues one send call, for the message built from its item. *)
Lemma send_one_ok E sender item w w' :
  SendEmails.send_one E sender item w = (Ok tt, w') ->
  exists call id,
    builds E sender (draws w) item call
    /\ w' = log (log (advance w) (EvSend "me" call)) (sent_line id (snd item)).
Proof.
  destruct item as [[body subject] to_email]. rewrite send_one_run.
  unfold builds.
  destruct (create_message_with _ _ _ _ _ _) as [message|e]; [|discriminate].
  cbn zeta. destruct (gmail_send E _) as [result|e]; [|discriminate].
  destruct (result !! "id") as [id|]; [|discriminate].
  intros [= <-]. eauto.
Qed.

Lemma for_each_ok_calls E sender items : forall w w',
  for_each items (SendEmails.send_one E sender) w = (Ok tt, w') ->
  exists calls,
    sent_in_order E sender (draws w) items calls
    /\ send_calls w' = send_calls w ++ calls
    /\ draws w' = draws w + length items
    /\ (exists rest, trace w' = trace w ++ rest
          /\ forallb (fun ev => negb (is_authorization ev)) rest = true
          /\ (items = [] -> rest = [])).
Proof.
  induction items as [|item items IH]; intros w w' Hrun.
  - cbn in Hrun. injection Hrun as <-. exists []. repeat split.
    + constructor.
    + now rewrite app_nil_r.
    + cbn; lia.
    + exists []. now rewrite app_nil_r.
  - cbn [for_each] in Hrun. unfold bind in Hrun.
    destruct (SendEmails.send_one E sender item w) as [[[]|e] w1] eqn:Hone; [|discriminate].
    apply send_one_ok in Hone as (call & id & Hb & ->).
    apply IH in Hrun as (calls & Hs & Hc & Hd & rest & Ht & Hna & _).
    exists (call :: calls). repeat split.
    + econstructor; eauto.
    + rewrite Hc, !send_calls_log. cbn. rewrite app_nil_r, <- app_assoc. reflexivity.
    + rewrite Hd. cbn. lia.
    + exists ([EvSend "me" call; sent_line id (snd item)] ++ rest). repeat split.
      * rewrite Ht. cbn. rewrite <- !app_assoc. reflexivity.
      * cbn. exact Hna.
      * discriminate.
Qed.


Lemma chars_app a b : chars (a +:+ b) = chars a ++ chars b.
Proof.
  induction a as [|c a IH]; [reflexivity|].
  change (chars (String c (a +:+ b)) = c :: (chars a ++ chars b)).
  unfold chars in *. cbn [list_ascii_of_string]. now rewrite IH.
Qed.

Lemma chars_of_chars l : chars (of_chars l) = l.
Proof. apply list_ascii_of_string_of_list_ascii. Qed.

Lemma of_chars_chars s : of_chars (chars s) = s.
Proof. apply string_of_list_ascii_of_string. Qed.

Lemma chars_inj a b : chars a = chars b -> a = b.
Proof. intros H. rewrite <- (of_chars_chars a), <- (of_chars_chars b). now rewrite H. Qed.

Lemma of_chars_app a b : of_chars (a ++ b) = of_chars a +:+ of_chars b.
Proof. apply chars_inj. now rewrite chars_app, !chars_of_chars. Qed.

Lemma app_assoc_s (a b c : string) : (a +:+ b) +:+ c = a +:+ b +:+ c.
Proof. apply chars_inj. rewrite !chars_app. now rewrite <- app_assoc. Qed.

Lemma length_chars s : length (chars s) = String.length s.
Proof. unfold chars. induction s as [|c s IH]; cbn [list_ascii_of_string length String.length]; congruence. Qed.

Lemma digits_string_of_uint d :
  forallb is_digit (chars (NilEmpty.string_of_uint d)) = true.
Proof. induction d; cbn; auto. Qed.

Lemma digits_string_of_uint_zero d :
  forallb is_digit (chars (NilZero.string_of_uint d)) = true.
Proof. destruct d; try apply (digits_string_of_uint (_ _)). reflexivity. Qed.

Lemma to_uint_not_nil n : N.to_uint n <> Decimal.Nil.
Proof.
  destruct n; cbn; [discriminate | apply DecimalPos.Unsigned.to_uint_nonnil].
Qed.

Lemma value_decimal n : value (NilZero.string_of_uint (N.to_uint n)) = Some n.
Proof.
  unfold value, NilZero.string_of_uint.
  destruct (N.to_uint n) eqn:Hd; try (rewrite <- Hd, NilEmpty.usu; cbn; now rewrite DecimalN.Unsigned.of_to).
  now apply to_uint_not_nil in Hd.
Qed.

Lemma value_zero s : value (String "0" s) = value s.
Proof.
  unfold value. cbn [NilEmpty.uint_of_string].
  destruct (NilEmpty.uint_of_string s); reflexivity.
Qed.

Lemma value_zero_padded width n : value (zero_padded width n) = Some n.
Proof.
  unfold zero_padded, replicate_char.
  induction (width - _) as [|k IH]; cbn [repeat of_chars string_of_list_ascii].
  - apply value_decimal.
  - change (String "0" (string_of_list_ascii (repeat "0"%char k)) +:+ ?d)
      with (String "0" (string_of_list_ascii (repeat "0"%char k) +:+ d)).
    rewrite value_zero. exact IH.
Qed.

Lemma zero_padded_inj width n m : zero_padded width n = zero_padded width m -> n = m.
Proof.
  intros H. apply (f_equal value) in H. rewrite !value_zero_padded in H. congruence.
Qed.



Lemma forallb_chars_app P a b :
  forallb P (chars (a +:+ b)) = forallb P (chars a) && forallb P (chars b).
Proof. now rewrite chars_app, forallb_app. Qed.

Lemma forallb_weaken {A} (P Q : A -> bool) l :
  (forall x, P x = true -> Q x = true) -> forallb P l = true -> forallb Q l = true.
Proof. intros H. rewrite !forallb_forall. auto. Qed.

Lemma base_char_boundary_char c : base_char c = true -> boundary_char c = true.
Proof. unfold boundary_char. now intros ->. Qed.

Lemma digit_base_char c : is_digit c = true -> base_char c = true.
Proof. unfold base_char. now intros ->. Qed.

Lemma zero_padded_digits width n : forallb is_digit (chars (zero_padded width n)) = true.
Proof.
  unfold zero_padded, replicate_char. rewrite forallb_chars_app, chars_of_chars.
  rewrite digits_string_of_uint_zero, andb_true_r.
  induction (width - _); cbn; auto.
Qed.

Lemma boundary_of_token_chars token :
  forallb base_char (chars (Email.boundary_of_token token)) = true.
Proof.
  unfold Email.boundary_of_token. rewrite !forallb_chars_app.
  rewrite (forallb_weaken _ _ _ digit_base_char (zero_padded_digits 19 token)).
  reflexivity.
Qed.

Lemma str_of_nat_digits n : forallb is_digit (chars (str_of_nat n)) = true.
Proof. apply digits_string_of_uint_zero. Qed.

Lemma search_boundary_cases text boundary : forall fuel counter b,
  Email.search_boundary fuel counter boundary b text = b
  \/ exists k, Email.search_boundary fuel counter boundary b text
               = boundary +:+ "." +:+ str_of_nat k.
Proof.
  induction fuel as [|fuel IH]; intros counter b; cbn [Email.search_boundary].
  - destruct (negb _); auto.
  - destruct (negb _); auto.
    destruct (IH (S counter) (boundary +:+ "." +:+ str_of_nat counter)) as [->|[k ->]]; eauto.
Qed.

Lemma make_boundary_cases token text :
  Email.make_boundary token text = Email.boundary_of_token token
  \/ exists k, Email.make_boundary token text
               = Email.boundary_of_token token +:+ "." +:+ str_of_nat k.
Proof. apply search_boundary_cases. Qed.

Lemma make_boundary_chars token text :
  forallb boundary_char (chars (Email.make_boundary token text)) = true.
Proof.
  pose proof (boundary_of_token_chars token) as Hb.
  apply (forallb_weaken _ _ _ base_char_boundary_char) in Hb.
  destruct (make_boundary_cases token text) as [->|[k ->]]; [exact Hb|].
  rewrite !forallb_chars_app, Hb. cbn [andb].
  change (chars ".") with ["."%char]. cbn [forallb].
  replace (boundary_char ".") with true by reflexivity. cbn [andb].
  eapply forallb_weaken; [|apply str_of_nat_digits].
  intros c Hc. now apply base_char_boundary_char, digit_base_char.
Qed.

Lemma boundary_of_token_inj t1 t2 :
  Email.boundary_of_token t1 = Email.boundary_of_token t2 -> t1 = t2.
Proof.
  unfold Email.boundary_of_token. intros H.
  apply String.app_inj in H.
  apply (f_equal chars) in H. rewrite !chars_app in H.
  apply app_inv_tail in H. apply chars_inj in H.
  now apply zero_padded_inj in H.
Qed.

(** Two texts that agree up to their first occurrence of [c] agree before it. *)
Lemma split_first {A} (c : A) : forall a a' r r',
  ~ In c a -> ~ In c a' -> a ++ c :: r = a' ++ c :: r' -> a = a' /\ r = r'.
Proof.
  induction a as [|x a IH]; intros [|x' a'] r r' Ha Ha' H; cbn in *.
  - injection H as ->. auto.
  - injection H as -> _. tauto.
  - injection H as -> _. tauto.
  - injection H as -> H. apply IH in H as [-> ->]; tauto.
Qed.

Lemma forallb_not_in {A} (P : A -> bool) l c :
  forallb P l = true -> P c = false -> ~ In c l.
Proof. rewrite forallb_forall. intros H Hc Hin. apply H in Hin. congruence. Qed.

Lemma make_boundary_inj t1 t2 text :
  Email.make_boundary t1 text = Email.make_boundary t2 text -> t1 = t2.
Proof.
  pose proof (boundary_of_token_chars t1) as H1.
  pose proof (boundary_of_token_chars t2) as H2.
  assert (Hdot : base_char "." = false) by reflexivity.
  destruct (make_boundary_cases t1 text) as [->|[k1 ->]],
           (make_boundary_cases t2 text) as [->|[k2 ->]]; intros H.
  - now apply boundary_of_token_inj.
  - exfalso. rewrite H in H1. rewrite !forallb_chars_app in H1.
    change (chars ".") with ["."%char] in H1. cbn [forallb] in H1.
    rewrite Hdot in H1. cbn in H1. now rewrite andb_false_r in H1.
  - exfalso. rewrite <- H in H2. rewrite !forallb_chars_app in H2.
    change (chars ".") with ["."%char] in H2. cbn [forallb] in H2.
    rewrite Hdot in H2. cbn in H2. now rewrite andb_false_r in H2.
  - apply (f_equal chars) in H. rewrite !chars_app in H.
    change (chars ".") with ["."%char] in H. cbn [app] in H.
    apply split_first in H as [H _];
      [| eapply forallb_not_in; eauto | eapply forallb_not_in; eauto].
    apply chars_inj in H. now apply boundary_of_token_inj.
Qed.









Lemma urlsafe_well_formed : well_formed urlsafe.
Proof. intros [[[[[[] []] []] []] []] []]; split; reflexivity. Qed.

Lemma standard_well_formed : well_formed standard.
Proof. intros [[[[[[] []] []] []] []] []]; split; reflexivity. Qed.

Lemma list_ind3 {A} (P : list A -> Prop) :
  P [] -> (forall a, P [a]) -> (forall a b, P [a; b]) ->
  (forall a b c l, P l -> P (a :: b :: c :: l)) ->
  forall l, P l.
Proof.
  intros H0 H1 H2 H3.
  assert (H : forall l, P l /\ (forall a, P (a :: l)) /\ (forall a b, P (a :: b :: l))).
  { induction l as [|x l (IH0 & IH1 & IH2)]; repeat split; auto. }
  intros l. apply H.
Qed.

Lemma decode_encode_chars al bs :
  well_formed al -> decode_chars al (encode_chars al bs) = Some bs.
Proof.
  intros Hal. induction bs as [ | a | a b | a b c l IH] using list_ind3.
  - reflexivity.
  - destruct a as [a0 a1 a2 a3 a4 a5 a6 a7]. cbn [encode_chars decode_chars].
    destruct (Hal (a7, a6, a5, a4, a3, a2)) as [-> _].
    destruct (Hal (a1, a0, false, false, false, false)) as [-> _].
    reflexivity.
  - destruct a as [a0 a1 a2 a3 a4 a5 a6 a7], b as [b0 b1 b2 b3 b4 b5 b6 b7].
    cbn [encode_chars decode_chars].
    destruct (Hal (a7, a6, a5, a4, a3, a2)) as [-> _].
    destruct (Hal (a1, a0, b7, b6, b5, b4)) as [-> _].
    destruct (Hal (b3, b2, b1, b0, false, false)) as [-> ->].
    reflexivity.
  - destruct a as [a0 a1 a2 a3 a4 a5 a6 a7], b as [b0 b1 b2 b3 b4 b5 b6 b7],
      c as [c0 c1 c2 c3 c4 c5 c6 c7].
    cbn [encode_chars decode_chars].
    destruct (Hal (a7, a6, a5, a4, a3, a2)) as [-> _].
    destruct (Hal (a1, a0, b7, b6, b5, b4)) as [-> _].
    destruct (Hal (b3, b2, b1, b0, c7, c6)) as [-> _].
    destruct (Hal (c5, c4, c3, c2, c1, c0)) as [-> ->].
    rewrite IH. reflexivity.
Qed.

Lemma urlsafe_b64decode_encode s : urlsafe_b64decode (urlsafe_b64encode s) = Some s.
Proof.
  unfold urlsafe_b64decode, urlsafe_b64encode, decode, encode.
  rewrite chars_of_chars, decode_encode_chars by apply urlsafe_well_formed.
  cbn. now rewrite of_chars_chars.
Qed.

Lemma urlsafe_b64encode_inj s s' :
  urlsafe_b64encode s = urlsafe_b64encode s' -> s = s'.
Proof.
  intros H. apply (f_equal urlsafe_b64decode) in H.
  rewrite !urlsafe_b64decode_encode in H. congruence.
Qed.


Lemma chunks_go_run t : forall rest w acc,
  forallb not_blank t = true ->
  Email.chunks_go (t ++ rest) w acc = Email.chunks_go rest w (rev t ++ acc).
Proof.
  induction t as [|c t IH]; intros rest w acc Ht; [reflexivity|].
  cbn [forallb] in Ht. apply andb_true_iff in Ht as [Hc Ht].
  cbn [app Email.chunks_go]. unfold not_blank in Hc.
  apply negb_true_iff in Hc. rewrite Hc.
  rewrite IH by exact Ht. cbn [rev]. now rewrite <- app_assoc.
Qed.

Lemma chunks_of_multipart_value b :
  forallb not_blank (chars b) = true ->
  Email.chunks_of (multipart_value b)
  = [([], chars "multipart/alternative;");
     ([" "%char], chars ("boundary=" +:+ Email.dquote +:+ b +:+ Email.dquote))].
Proof.
  intros Hb. unfold Email.chunks_of, multipart_value.
  rewrite !chars_app.
  change (chars "multipart/alternative; boundary=")
    with (chars "multipart/alternative;" ++ " "%char :: chars "boundary=").
  change (chars Email.dquote) with ["034"%char].
  cbn -[Email.chunks_go].
  cbn [Email.chunks_go Email.is_blank Ascii.eqb Bool.eqb orb].
  rewrite chunks_go_run by exact Hb.
  cbn [Email.chunks_go Email.is_blank Ascii.eqb Bool.eqb orb rev app].
  rewrite !rev_app_distr, rev_involutive. cbn [rev app].
  reflexivity.
Qed.

Lemma header_encode_multipart_value b :
  forallb not_blank (chars b) = true ->
  31 <= String.length b ->
  Email.header_encode "Content-Type" (multipart_value b)
  = "multipart/alternative;" +:+ nl
    +:+ " boundary=" +:+ Email.dquote +:+ b +:+ Email.dquote.
Proof.
  intros Hb Hlen. unfold Email.header_encode.
  rewrite chunks_of_multipart_value by exact Hb.
  set (c1 := ([], chars "multipart/alternative;") : Email.chunk).
  set (c2 := ([" "%char], chars ("boundary=" +:+ Email.dquote +:+ b +:+ Email.dquote))
             : Email.chunk).
  cbn [fold_left].
  replace (Email.append_chunk _ c1)
    with {| Email.f_lines := []; Email.f_current := [c1]; Email.f_initial := 14 |}
    by reflexivity.
  assert (Hlong : (Email.MAXLINELEN <? Email.acc_len 14 [c1; c2]) = true).
  { apply Nat.ltb_lt. unfold Email.acc_len, Email.acc_str, Email.MAXLINELEN, c1, c2.
    cbn [flat_map Email.chunk_str fst snd app].
    rewrite List.length_app. cbn [length]. rewrite List.length_app, !chars_app, !List.length_app, !length_chars.
    cbn [length String.length]. change (String.length Email.dquote) with 1. lia. }
  unfold Email.append_chunk.
  cbn [Email.f_current Email.f_initial Email.f_lines app].
  rewrite Hlong.
  replace (Email.find_split [c1; c2]) with (Some 1) by reflexivity.
  cbn [firstn skipn Email.f_current Email.f_initial Email.f_lines app].
  unfold Email.newline.
  cbn [Email.f_current Email.f_initial Email.f_lines app rev].
  replace (Email.chunk_eqb ([" "%char], []) ([" "%char], [])) with true by reflexivity.
  cbn [rev app].
  assert (Hpos : (0 <? Email.acc_len 0 [c2]) = true).
  { apply Nat.ltb_lt. unfold Email.acc_len, Email.acc_str, c2.
    cbn [flat_map Email.chunk_str fst snd app length]. lia. }
  rewrite Hpos.
  replace (Email.isspace (Email.acc_str [c2])) with false by reflexivity.
  rewrite andb_false_r. cbn [andb app map join].
  unfold Email.acc_str, c1, c2. cbn [flat_map Email.chunk_str fst snd app].
  rewrite !List.app_nil_r, of_chars_chars. unfold of_chars.
  cbn [string_of_list_ascii]. unfold chars.
  rewrite string_of_list_ascii_of_string. reflexivity.
Qed.

Lemma length_app_s a b : String.length (a +:+ b) = String.length a + String.length b.
Proof. now rewrite <- !length_chars, chars_app, List.length_app. Qed.

Lemma boundary_char_facts c :
  boundary_char c = true ->
  not_blank c = true /\ Email.header_safe_char c = true /\ c <> NL /\ c <> "-"%char.
Proof.
  destruct c as [[] [] [] [] [] [] [] []]; cbn; intros H; try discriminate H;
    repeat split; discriminate.
Qed.

Lemma make_boundary_not_blank token text :
  forallb not_blank (chars (Email.make_boundary token text)) = true.
Proof.
  eapply forallb_weaken; [|apply make_boundary_chars].
  intros c Hc. now apply boundary_char_facts.
Qed.

Lemma make_boundary_header_safe token text :
  Email.header_safe (Email.make_boundary token text) = true.
Proof.
  eapply forallb_weaken; [|apply make_boundary_chars].
  intros c Hc. now apply boundary_char_facts.
Qed.

Lemma length_zero_padded width n : width <= String.length (zero_padded width n).
Proof.
  unfold zero_padded, replicate_char. rewrite length_app_s, <- length_chars, chars_of_chars.
  rewrite List.repeat_length. lia.
Qed.

Lemma make_boundary_length token text :
  36 <= String.length (Email.make_boundary token text).
Proof.
  assert (H : 36 <= String.length (Email.boundary_of_token token)).
  { unfold Email.boundary_of_token. rewrite !length_app_s.
    pose proof (length_zero_padded 19 token). cbn. lia. }
  destruct (make_boundary_cases token text) as [->|[k ->]]; [exact H|].
  rewrite length_app_s. lia.
Qed.

(** The Content-Type header of the container, as it is written. *)
Lemma fold_content_type fo token text :
  Email.fold_binary fo "Content-Type" (multipart_value (Email.make_boundary token text))
  = Ok ("Content-Type: multipart/alternative;" +:+ nl
        +:+ " boundary=" +:+ Email.dquote +:+ Email.make_boundary token text
        +:+ Email.dquote +:+ nl).
Proof.
  unfold Email.fold_binary.
  assert (Hsafe : Email.header_safe (multipart_value (Email.make_boundary token text)) = true).
  { unfold Email.header_safe, multipart_value. rewrite !forallb_chars_app.
    fold (Email.header_safe (Email.make_boundary token text)).
    rewrite make_boundary_header_safe. reflexivity. }
  rewrite Hsafe, header_encode_multipart_value.
  - f_equal. apply chars_inj. rewrite !chars_app, <- !List.app_assoc. reflexivity.
  - apply make_boundary_not_blank.
  - pose proof (make_boundary_length token text). lia.
Qed.

Lemma join_empty_cons x l : join "" (x :: l) = x +:+ join "" l.
Proof.
  destruct l; cbn [join]; [|reflexivity].
  apply chars_inj. rewrite chars_app. cbn. now rewrite List.app_nil_r.
Qed.

Lemma write_headers_cons fo name value hs :
  Email.write_headers fo ((name, value) :: hs)
  = (line <- Email.fold_binary fo name value ;;
     rest <- Email.write_headers fo hs ;;
     Ok (line +:+ rest))%exc.
Proof.
  unfold Email.write_headers. cbn [exc_map fst snd].
  destruct (Email.fold_binary fo name value) as [line|e]; cbn [exc_bind]; [|reflexivity].
  destruct (exc_map _ hs) as [lines|e]; cbn [exc_bind]; [|reflexivity].
  now rewrite join_empty_cons.
Qed.

Lemma write_headers_nil fo : Email.write_headers fo [] = Ok "".
Proof. reflexivity. Qed.

Lemma set_boundary_other hs b :
  lower_case_names hs ->
  map (fun h : string * string =>
         if String.eqb (fst h) "Content-Type"
         then (fst h, snd h +:+ "; boundary=" +:+ Email.dquote +:+ b +:+ Email.dquote)
         else h) hs = hs.
Proof.
  induction 1 as [|h hs Hh _ IH]; [reflexivity|]. cbn [map]. now rewrite Hh, IH.
Qed.

Lemma assemble_container fo user_headers part text token :
  lower_case_names user_headers ->
  Email.assemble fo (container user_headers part) [text] token
  = (header_lines <- Email.write_headers fo user_headers ;;
     Ok (message_bytes (Email.boundary_for [text] token) header_lines text))%exc.
Proof.
  intros Hnames. unfold Email.assemble, Email.set_boundary, container.
  cbn [Email.headers Email.parts map fst snd].
  rewrite set_boundary_other by exact Hnames.
  replace (String.eqb "Content-Type" "Content-Type") with true by reflexivity.
  replace (String.eqb "MIME-Version" "Content-Type") with false by reflexivity.
  cbn [fst snd].
  set (b := Email.boundary_for [text] token).
  rewrite !write_headers_cons.
  change ("multipart/alternative" +:+ "; boundary=" +:+ Email.dquote +:+ b +:+ Email.dquote)
    with (multipart_value b).
  unfold b, Email.boundary_for. rewrite fold_content_type. cbn [exc_bind].
  replace (Email.fold_binary fo "MIME-Version" "1.0")
    with (Ok ("MIME-Version: 1.0" +:+ nl) : Exc string) by reflexivity.
  cbn [exc_bind].
  destruct (Email.write_headers fo user_headers) as [lines|e]; cbn [exc_bind]; [|reflexivity].
  f_equal. unfold message_bytes. cbn [join].
  apply chars_inj. rewrite !chars_app, <- !List.app_assoc. reflexivity.
Qed.


Lemma message_bytes_tail b h p :
  exists pre, chars (message_bytes b h p)
              = pre ++ NL :: ("-"%char :: "-"%char :: chars b) ++ ["-"%char; "-"%char; NL].
Proof.
  unfold message_bytes.
  exists (chars ("Content-Type: multipart/alternative;" +:+ nl
        +:+ " boundary=" +:+ Email.dquote +:+ b +:+ Email.dquote +:+ nl
        +:+ "MIME-Version: 1.0" +:+ nl +:+ h +:+ nl +:+ "--" +:+ b +:+ nl +:+ p)).
  rewrite !chars_app, <- !List.app_assoc. reflexivity.
Qed.

Lemma message_bytes_boundary_inj b1 b2 h1 h2 p1 p2 :
  ~ In NL (chars b1) -> ~ In NL (chars b2) ->
  message_bytes b1 h1 p1 = message_bytes b2 h2 p2 -> b1 = b2.
Proof.
  intros H1 H2 H. apply (f_equal (fun s => rev (chars s))) in H. cbv beta in H.
  destruct (message_bytes_tail b1 h1 p1) as [pre1 E1].
  destruct (message_bytes_tail b2 h2 p2) as [pre2 E2].
  rewrite E1, E2 in H. clear E1 E2.
  rewrite !rev_app_distr in H. cbn [rev app] in H.
  rewrite !rev_app_distr in H. cbn [rev app] in H.
  rewrite <- !List.app_assoc in H. cbn [app] in H.
  injection H as H.
  assert (Hno : forall b, ~ In NL (chars b) ->
                          ~ In NL (rev (chars b) ++ ["-"%char; "-"%char])).
  { intros b Hb Hin. apply in_app_iff in Hin as [Hin|Hin].
    - apply Hb. now apply in_rev.
    - cbn in Hin. intuition discriminate. }
  change (rev (chars b1) ++ "-"%char :: "-"%char :: NL :: rev pre1)
    with (rev (chars b1) ++ ["-"%char; "-"%char] ++ NL :: rev pre1) in H.
  change (rev (chars b2) ++ "-"%char :: "-"%char :: NL :: rev pre2)
    with (rev (chars b2) ++ ["-"%char; "-"%char] ++ NL :: rev pre2) in H.
  rewrite !List.app_assoc in H.
  apply split_first in H as [H _]; auto.
  apply app_inv_tail in H. apply (f_equal (@rev ascii)) in H.
  rewrite !rev_involutive in H. now apply chars_inj.
Qed.

Lemma html_part_text_layout html :
  html_part_text html
  = "Content-Type: text/html; charset=" +:+ Email.dquote +:+ charset_of html
    +:+ Email.dquote +:+ nl
    +:+ "MIME-Version: 1.0" +:+ nl
    +:+ "Content-Transfer-Encoding: " +:+ transfer_encoding_of html +:+ nl
    +:+ nl +:+ payload_of html.
Proof.
  unfold html_part_text, text_part_headers, charset_of, transfer_encoding_of,
    payload_of, Email.MIMEText.
  destruct (is_7bit html); reflexivity.
Qed.

Lemma build_message_container sender to subject html :
  SendEmails.build_message sender to subject html
  = container [("to", to); ("from", sender); ("subject", subject);
               ("bcc", "6939709@bcc.hubspot.com")]
              (Email.MIMEText html "html").
Proof. reflexivity. Qed.

Lemma script_build_message_container sender to subject html :
  SendEmailsScript.build_message sender to subject html
  = container [("to", to); ("from", sender); ("subject", subject)]
              (Email.MIMEText html "html").
Proof. reflexivity. Qed.

Lemma flatten_parts_container fo hs html :
  Email.flatten_parts fo (container hs (Email.MIMEText html "html"))
  = Ok [html_part_text html].
Proof.
  unfold Email.flatten_parts, container. cbn [Email.parts exc_map].
  now rewrite flatten_html_part.
Qed.

Lemma as_bytes_container E hs html w :
  lower_case_names hs ->
  Email.as_bytes E (container hs (Email.MIMEText html "html")) w
  = ((header_lines <- Email.write_headers (fold_other E) hs ;;
      Ok (message_bytes (Email.make_boundary (randrange E (draws w)) (html_part_text html))
            header_lines (html_part_text html)))%exc,
     advance w).
Proof.
  intros Hhs. unfold Email.as_bytes, bind, lift, draw.
  rewrite flatten_parts_container. rewrite assemble_container by exact Hhs.
  reflexivity.
Qed.




Lemma app_empty_r_s s : s +:+ "" = s.
Proof. apply chars_inj. rewrite chars_app. apply List.app_nil_r. Qed.

Lemma write_user_headers fo to sender subject extra :
  Email.write_headers fo (("to", to) :: ("from", sender) :: ("subject", subject) :: extra)
  = (to_line <- Email.fold_binary fo "to" to ;;
     from_line <- Email.fold_binary fo "from" sender ;;
     subject_line <- Email.fold_binary fo "subject" subject ;;
     rest <- Email.write_headers fo extra ;;
     Ok (to_line +:+ from_line +:+ subject_line +:+ rest))%exc.
Proof.
  rewrite !write_headers_cons.
  destruct (Email.fold_binary fo "to" to); cbn [exc_bind]; [|reflexivity].
  destruct (Email.fold_binary fo "from" sender); cbn [exc_bind]; [|reflexivity].
  destruct (Email.fold_binary fo "subject" subject); cbn [exc_bind]; [|reflexivity].
  destruct (Email.write_headers fo extra); reflexivity.
Qed.

Lemma create_message_eq E sender to subject html w :
  SendEmails.create_message E sender to subject html w
  = ((to_line <- Email.fold_binary (fold_other E) "to" to ;;
      from_line <- Email.fold_binary (fold_other E) "from" sender ;;
      subject_line <- Email.fold_binary (fold_other E) "subject" subject ;;
      Ok ({[ "raw" := Base64.urlsafe_b64encode
             (message_bytes
                (Email.make_boundary (randrange E (draws w)) (html_part_text html))
                (to_line +:+ from_line +:+ subject_line +:+ bcc_line)
                (html_part_text html)) ]} : gmap string string))%exc,
     advance w).
Proof.
  unfold SendEmails.create_message. rewrite build_message_container.
  unfold bind at 1. rewrite as_bytes_container by (repeat constructor).
  rewrite write_user_headers, write_headers_cons, write_headers_nil.
  replace (Email.fold_binary (fold_other E) "bcc" "6939709@bcc.hubspot.com")
    with (Ok bcc_line : Exc string) by reflexivity.
  destruct (Email.fold_binary (fold_other E) "to" to); cbn [exc_bind]; [|reflexivity].
  destruct (Email.fold_binary (fold_other E) "from" sender); cbn [exc_bind]; [|reflexivity].
  destruct (Email.fold_binary (fold_other E) "subject" subject); cbn [exc_bind]; [|reflexivity].
  replace (bcc_line +:+ "") with bcc_line by reflexivity. reflexivity.
Qed.

Lemma script_create_message_eq E sender to subject html w :
  SendEmailsScript.create_message E sender to subject html w
  = ((to_line <- Email.fold_binary (fold_other E) "to" to ;;
      from_line <- Email.fold_binary (fold_other E) "from" sender ;;
      subject_line <- Email.fold_binary (fold_other E) "subject" subject ;;
      Ok ({[ "raw" := Base64.urlsafe_b64encode
             (message_bytes
                (Email.make_boundary (randrange E (draws w)) (html_part_text html))
                (to_line +:+ from_line +:+ subject_line)
                (html_part_text html)) ]} : gmap string string))%exc,
     advance w).
Proof.
  unfold SendEmailsScript.create_message. rewrite script_build_message_container.
  unfold bind at 1. rewrite as_bytes_container by (repeat constructor).
  rewrite write_user_headers, write_headers_nil.
  destruct (Email.fold_binary (fold_other E) "to" to); cbn [exc_bind]; [|reflexivity].
  destruct (Email.fold_binary (fold_other E) "from" sender); cbn [exc_bind]; [|reflexivity].
  destruct (Email.fold_binary (fold_other E) "subject" subject); cbn [exc_bind]; [|reflexivity].
  rewrite app_empty_r_s. reflexivity.
Qed.

Lemma make_boundary_no_newline token text :
  ~ In NL (chars (Email.make_boundary token text)).
Proof.
  eapply forallb_not_in; [apply make_boundary_chars|reflexivity].
Qed.




(** The dispatcher's message for the same input (and for an empty subject
    and body) does hold it. *)
Example create_message_with_bcc :
  exists bytes,
    decoded_output
      (fst (SendEmails.create_message (cooperative 0)
              "cameron.michie@ably.com" "a@x.com" "" "" initial_world))
    = Some bytes
    /\ index 0 "6939709@bcc.hubspot.com" bytes <> None
    /\ index 0 "Content-Type: text/html" bytes <> None.
Proof. eexists. split; [vm_compute; reflexivity|]. split; vm_compute; discriminate. Qed.

Lemma raw_inj (x y : string) :
  ({[ "raw" := x ]} : gmap string string) = {[ "raw" := y ]} -> x = y.
Proof.
  intros H. apply (f_equal (fun m : gmap string string => m !! "raw")) in H.
  rewrite !lookup_singleton_eq in H. congruence.
Qed.

(** C8 (as amended).  [create_message] calls no collaborator: it leaves the
    world as it was but for one value taken from the process-wide random
    generator (the token of the MIME boundary).  For fixed arguments the
    output is a function of that value: two invocations return the same
    output exactly when they draw the same token. *)
Theorem create_message_output_depends_on_token
  (E : Env) (sender to subject html : string) (w1 w2 : World)
  (out1 out2 : gmap string string) :
  fst (SendEmails.create_message E sender to subject html w1) = Ok out1 ->
  fst (SendEmails.create_message E sender to subject html w2) = Ok out2 ->
  snd (SendEmails.create_message E sender to subject html w1) = advance w1
  /\ (out1 = out2 <-> randrange E (draws w1) = randrange E (draws w2)).
Proof.
  rewrite !create_message_eq. cbn [fst snd].
  destruct (Email.fold_binary (fold_other E) "to" to) as [to_line|e]; [|discriminate].
  destruct (Email.fold_binary (fold_other E) "from" sender) as [from_line|e]; [|discriminate].
  destruct (Email.fold_binary (fold_other E) "subject" subject) as [subject_line|e];
    [|discriminate].
  cbn [exc_bind]. intros [= <-] [= <-]. split; [reflexivity|]. split.
  - intros H. apply raw_inj, urlsafe_b64encode_inj in H.
    apply message_bytes_boundary_inj in H; [|apply make_boundary_no_newline..].
    now apply make_boundary_inj in H.
  - now intros ->.
Qed.

Lemma create_message_output_depends_on_token_witness :
  fst (SendEmails.create_message (cooperative 0)
         "cameron.michie@ably.com" "a@x.com" "Hi" "<p>hi</p>" initial_world)
  = Ok first_output
  /\ fst (SendEmails.create_message (cooperative 0)
            "cameron.michie@ably.com" "a@x.com" "Hi" "<p>hi</p>"
            (advance initial_world))
     = Ok second_output
  /\ (first_output = second_output <-> 0%N = 1%N).
Proof.
  assert (H1 : fst (SendEmails.create_message (cooperative 0)
         "cameron.michie@ably.com" "a@x.com" "Hi" "<p>hi</p>" initial_world)
               = Ok first_output) by (vm_compute; reflexivity).
  assert (H2 : fst (SendEmails.create_message (cooperative 0)
            "cameron.michie@ably.com" "a@x.com" "Hi" "<p>hi</p>"
            (advance initial_world)) = Ok second_output) by (vm_compute; reflexivity).
  split; [exact H1|]. split; [exact H2|].
  exact (proj2 (create_message_output_depends_on_token
                  (cooperative 0) "cameron.michie@ably.com" "a@x.com" "Hi" "<p>hi</p>"
                  initial_world (advance initial_world)
                  first_output second_output H1 H2)).
Defined.

(** C8, the claim as stated, fails: two invocations in a row, with the same
    arguments, return different outputs. *)
Lemma create_message_twice_differs :
  let call := SendEmails.create_message (cooperative 0)
                "cameron.michie@ably.com" "a@x.com" "Hi" "<p>hi</p>" in
  fst (call initial_world) <> fst (call (snd (call initial_world))).
Proof.
  intros call H. apply (f_equal decoded_output) in H.
  vm_compute in H. discriminate H.
Qed.


(** ** [zip3] *)

Lemma zip3_lookup {A B C} (a : list A) (b : list B) (c : list C) i x y z :
  zip3 a b c !! i = Some (x, y, z)
  <-> a !! i = Some x /\ b !! i = Some y /\ c !! i = Some z.
Proof.
  revert b c i. induction a as [|x' a IH]; intros [|y' b] [|z' c] i; cbn [zip3];
    try (split; [discriminate | intros (? & ? & ?); discriminate]).
  destruct i as [|i]; cbn.
  - split; [intros [= -> -> ->]; auto | intros ([= ->] & [= ->] & [= ->]); auto].
  - apply IH.
Qed.

Lemma zip3_length {A B C} (a : list A) (b : list B) (c : list C) :
  length (zip3 a b c) = Nat.min (length a) (Nat.min (length b) (length c)).
Proof.
  revert b c. induction a as [|x a IH]; intros [|y b] [|z c]; cbn [zip3 length];
    try reflexivity; try lia.
  rewrite IH. lia.
Qed.

Lemma zip3_take {A B C} (a : list A) (b : list B) (c : list C) i :
  zip3 (take i a) (take i b) (take i c) = take i (zip3 a b c).
Proof.
  revert a b c. induction i as [|i IH]; intros [|x a] [|y b] [|z c];
    cbn [take firstn zip3]; try reflexivity; try (now rewrite IH);
    try (destruct (take i a) as [|? ?]; [reflexivity|];
         try (destruct (take i b) as [|? ?]); reflexivity).
Qed.

(** ** The loop *)

Lemma for_each_app {A} (l1 l2 : list A) (f : A -> M unit) w :
  for_each (l1 ++ l2) f w
  = match for_each l1 f w with
    | (Ok _, w') => for_each l2 f w'
    | (Raise e, w') => (Raise e, w')
    end.
Proof.
  revert w. induction l1 as [|x l1 IH]; intros w; [reflexivity|].
  cbn [app for_each]. unfold bind. destruct (f x w) as [[[]|e] w1]; [apply IH|reflexivity].
Qed.

Lemma sent_in_order_length E s d items calls :
  sent_in_order E s d items calls -> length calls = length items.
Proof. induction 1; cbn; congruence. Qed.

Lemma sent_in_order_lookup E s d items calls :
  sent_in_order E s d items calls ->
  forall i item, items !! i = Some item ->
                 exists call, calls !! i = Some call /\ builds E s (d + i) item call.
Proof.
  induction 1 as [|d item items call calls Hb _ IH]; intros i it Hi; [discriminate|].
  destruct i as [|i]; cbn in Hi.
  - injection Hi as <-. exists call. rewrite Nat.add_0_r. auto.
  - destruct (IH i it Hi) as (c & Hc & Hbc). exists c. split; [exact Hc|].
    now replace (d + S i) with (S d + i) by lia.
Qed.

Lemma sender_foldable E : foldable E "from" sender.
Proof. eexists. reflexivity. Qed.

Lemma create_message_with_eq fo s to subject html token :
  create_message_with fo s to subject html token
  = (to_line <- Email.fold_binary fo "to" to ;;
     from_line <- Email.fold_binary fo "from" s ;;
     subject_line <- Email.fold_binary fo "subject" subject ;;
     Ok ({[ "raw" := Base64.urlsafe_b64encode
            (message_bytes (Email.make_boundary token (html_part_text html))
               (to_line +:+ from_line +:+ subject_line +:+ bcc_line)
               (html_part_text html)) ]} : gmap string string))%exc.
Proof.
  unfold create_message_with, Email.as_bytes_with.
  rewrite build_message_container, flatten_parts_container. cbn [exc_bind].
  rewrite assemble_container by (repeat constructor).
  rewrite write_user_headers, write_headers_cons, write_headers_nil.
  replace (Email.fold_binary fo "bcc" "6939709@bcc.hubspot.com")
    with (Ok bcc_line : Exc string) by reflexivity.
  destruct (Email.fold_binary fo "to" to); cbn [exc_bind]; [|reflexivity].
  destruct (Email.fold_binary fo "from" s); cbn [exc_bind]; [|reflexivity].
  destruct (Email.fold_binary fo "subject" subject); cbn [exc_bind]; [|reflexivity].
  replace (bcc_line +:+ "") with bcc_line by reflexivity. reflexivity.
Qed.

Lemma sendable_builds E item d :
  sendable E item -> exists call, builds E sender d item call.
Proof.
  destruct item as [[body subject] to_email]. intros [[tl Ht] [sl Hs]].
  unfold builds. rewrite create_message_with_eq, Ht, Hs.
  destruct (sender_foldable E) as [fl ->]. cbn [exc_bind]. eauto.
Qed.

Lemma for_each_cooperative E items : forall w,
  delivers E -> Forall (sendable E) items ->
  exists w', for_each items (SendEmails.send_one E sender) w = (Ok tt, w').
Proof.
  induction items as [|item items IH]; intros w Hd Hs; [eexists; reflexivity|].
  apply Forall_cons in Hs as [Hitem Hs].
  destruct (sendable_builds E item (draws w) Hitem) as [call Hcall].
  destruct item as [[body subject] to_email]. unfold builds in Hcall.
  cbn [for_each]. unfold bind. rewrite send_one_run, Hcall. cbn zeta.
  destruct (Hd (trace (log (advance w) (EvSend "me" call)))) as (result & id & -> & ->).
  apply IH; assumption.
Qed.

(** ** Authorization *)

Lemma call_run ev answer w :
  call ev answer w
  = match answer (trace w ++ [ev]) with
    | None => (Ok tt, log w ev)
    | Some e => (Raise e, log w ev)
    end.
Proof. unfold call, bind, emit. cbn. destruct (answer _); reflexivity. Qed.

Lemma send_message_run E bodies subjects tos w :
  SendEmails.send_message E bodies subjects tos w
  = let e1 := EvFromClientSecretsFile "credentials.json" SendEmails.SCOPES in
    let e2 := EvRunLocalServer 0 in
    let e3 := EvBuild "gmail" "v1" in
    match oauth_from_client_secrets_file E (trace w ++ [e1]) with
    | Some e => (Raise e, log w e1)
    | None =>
        match oauth_run_local_server E (trace (log w e1) ++ [e2]) with
        | Some e => (Raise e, log (log w e1) e2)
        | None =>
            match gmail_build E (trace (log (log w e1) e2) ++ [e3]) with
            | Some e => (Raise e, authorized w)
            | None =>
                for_each (zip3 bodies subjects tos) (SendEmails.send_one E sender)
                         (authorized w)
            end
        end
    end.
Proof.
  unfold SendEmails.send_message. cbn zeta. unfold bind at 1. rewrite call_run.
  destruct (oauth_from_client_secrets_file E _); [reflexivity|].
  unfold bind at 1. rewrite call_run.
  destruct (oauth_run_local_server E _); [reflexivity|].
  unfold bind at 1. rewrite call_run.
  destruct (gmail_build E _); reflexivity.
Qed.

Lemma send_message_ok E bodies subjects tos w w' :
  SendEmails.send_message E bodies subjects tos w = (Ok tt, w') ->
  (forall b s t, SendEmails.send_message E b s t w
                 = for_each (zip3 b s t) (SendEmails.send_one E sender) (authorized w))
  /\ for_each (zip3 bodies subjects tos) (SendEmails.send_one E sender) (authorized w)
     = (Ok tt, w').
Proof.
  rewrite send_message_run. cbn zeta. intros H.
  destruct (oauth_from_client_secrets_file E _) eqn:H1; [discriminate|].
  destruct (oauth_run_local_server E _) eqn:H2; [discriminate|].
  destruct (gmail_build E _) eqn:H3; [discriminate|].
  split; [|exact H]. intros b s t. rewrite send_message_run. cbn zeta.
  now rewrite H1, H2, H3.
Qed.

Lemma send_calls_authorized w : send_calls (authorized w) = send_calls w.
Proof. unfold authorized. rewrite !send_calls_log. now rewrite !List.app_nil_r. Qed.

Lemma trace_authorized w : trace (authorized w) = trace w ++ authorization_calls.
Proof. unfold authorized, log. cbn. now rewrite <- !List.app_assoc. Qed.

Lemma send_message_cooperative E bodies subjects tos w :
  authorizes E -> delivers E ->
  Forall (sendable E) (zip3 bodies subjects tos) ->
  exists w' calls rest,
    SendEmails.send_message E bodies subjects tos w = (Ok tt, w')
    /\ trace w' = trace w ++ authorization_calls ++ rest
    /\ forallb (fun ev => negb (is_authorization ev)) rest = true
    /\ (zip3 bodies subjects tos = [] -> rest = [])
    /\ send_calls w' = send_calls w ++ calls
    /\ sent_in_order E sender (draws w) (zip3 bodies subjects tos) calls.
Proof.
  intros Ha Hd Hs. rewrite send_message_run. cbn zeta.
  destruct (Ha (trace w ++ [EvFromClientSecretsFile "credentials.json" SendEmails.SCOPES]))
    as (-> & _ & _).
  destruct (Ha (trace (log w (EvFromClientSecretsFile "credentials.json" SendEmails.SCOPES))
                ++ [EvRunLocalServer 0])) as (_ & -> & _).
  destruct (Ha (trace (log (log w (EvFromClientSecretsFile "credentials.json"
                                     SendEmails.SCOPES)) (EvRunLocalServer 0))
                ++ [EvBuild "gmail" "v1"])) as (_ & _ & ->).
  destruct (for_each_cooperative E _ (authorized w) Hd Hs) as [w' Hrun].
  destruct (for_each_ok_calls E sender _ _ _ Hrun)
    as (calls & Hin & Hcalls & _ & rest & Htrace & Hrest & Hnil).
  exists w', calls, rest. repeat split; auto.
  - rewrite Htrace, trace_authorized. now rewrite <- List.app_assoc.
  - now rewrite Hcalls, send_calls_authorized.
Qed.


Lemma cooperative_authorizes t : authorizes (cooperative t).
Proof. intros tr. repeat split. Qed.

Lemma cooperative_delivers t : delivers (cooperative t).
Proof. intros tr. eexists _, _. split; [reflexivity|]. apply lookup_singleton_eq. Qed.

Lemma header_safe_foldable E name value :
  Email.header_safe value = true -> foldable E name value.
Proof. intros H. unfold foldable, Email.fold_binary. rewrite H. eauto. Qed.


(** C9.  With sequences of unequal lengths [send_message] raises nothing:
    it sends as many messages as the shortest sequence has elements, those
    of the leading positions, and never looks at the rest. *)
Theorem send_message_stops_at_shortest
  (E : Env) (email_bodies email_subjects to_emails : list string) (w : World) :
  authorizes E -> delivers E ->
  Forall (sendable E) (zip3 email_bodies email_subjects to_emails) ->
  exists w' calls,
    SendEmails.send_message E email_bodies email_subjects to_emails w = (Ok tt, w')
    /\ send_calls w' = send_calls w ++ calls
    /\ length calls
       = Nat.min (length email_bodies)
           (Nat.min (length email_subjects) (length to_emails))
    /\ forall i message,
         calls !! i = Some message ->
         exists body subject to_email,
           email_bodies !! i = Some body
           /\ email_subjects !! i = Some subject
           /\ to_emails !! i = Some to_email
           /\ create_message_with (fold_other E) sender to_email subject body
                (randrange E (draws w + i)) = Ok message.
Proof.
  intros Ha Hd Hs.
  destruct (send_message_cooperative E _ _ _ w Ha Hd Hs)
    as (w' & calls & rest & Hrun & _ & _ & _ & Hcalls & Horder).
  exists w', calls. repeat split; auto.
  - now rewrite (sent_in_order_length _ _ _ _ _ Horder), zip3_length.
  - intros i message Hi.
    assert (Hlt : i < length (zip3 email_bodies email_subjects to_emails)).
    { rewrite <- (sent_in_order_length _ _ _ _ _ Horder). now apply lookup_lt_Some in Hi. }
    apply lookup_lt_is_Some_2 in Hlt as [[[body subject] to_email] Hitem].
    destruct (sent_in_order_lookup _ _ _ _ _ Horder i _ Hitem) as (call & Hcall & Hb).
    assert (call = message) as -> by congruence.
    apply zip3_lookup in Hitem as (? & ? & ?).
    exists body, subject, to_email. auto.
Qed.

Lemma send_message_stops_at_shortest_witness :
  exists w' calls,
    SendEmails.send_message (cooperative 7) ["<p>one</p>"; "<p>two</p>"]
      ["First"; "Second"; "Third"] ["a@x.com"; "b@x.com"; "c@x.com"; "d@x.com"]
      initial_world = (Ok tt, w')
    /\ send_calls w' = send_calls initial_world ++ calls
    /\ length calls = Nat.min 2 (Nat.min 3 4)
    /\ forall i message,
         calls !! i = Some message ->
         exists body subject to_email,
           ["<p>one</p>"; "<p>two</p>"] !! i = Some body
           /\ ["First"; "Second"; "Third"] !! i = Some subject
           /\ ["a@x.com"; "b@x.com"; "c@x.com"; "d@x.com"] !! i = Some to_email
           /\ create_message_with (fold_other (cooperative 7)) sender to_email subject body
                (randrange (cooperative 7) (draws initial_world + i)) = Ok message.
Proof.
  apply (send_message_stops_at_shortest (cooperative 7) ["<p>one</p>"; "<p>two</p>"]
           ["First"; "Second"; "Third"] ["a@x.com"; "b@x.com"; "c@x.com"; "d@x.com"]
           initial_world).
  - apply cooperative_authorizes.
  - apply cooperative_delivers.
  - repeat constructor; apply header_safe_foldable; reflexivity.
Defined.

(** C5.  When the messages before position [i] have been sent and the send
    call for position [i] raises [e], [send_message] raises [e] to its
    caller right after that call: the calls for the positions below [i]
    stay issued, the failed call is the last one, no call is made for a later
    position. *)
Theorem send_message_aborts_at_first_failure
  (E : Env) (email_bodies email_subjects to_emails : list string) (i : nat)
  (body subject to_email : string) (w w_i : World)
  (message : gmap string string) (e : exn) :
  email_bodies !! i = Some body ->
  email_subjects !! i = Some subject ->
  to_emails !! i = Some to_email ->
  SendEmails.send_message E (take i email_bodies) (take i email_subjects)
    (take i to_emails) w = (Ok tt, w_i) ->
  fst (SendEmails.create_message E sender to_email subject body w_i) = Ok message ->
  gmail_send E (trace w_i ++ [EvSend "me" message]) = Raise e ->
  exists w',
    SendEmails.send_message E email_bodies email_subjects to_emails w = (Raise e, w')
    /\ trace w' = trace w_i ++ [EvSend "me" message]
    /\ send_calls w' = send_calls w_i ++ [message]
    /\ length (send_calls w_i) = length (send_calls w) + i.
Proof.
  intros Hb Hs Ht Hprefix Hmsg Hfail.
  apply send_message_ok in Hprefix as [Hauth Hprefix].
  rewrite Hauth. rewrite zip3_take in Hprefix.
  assert (Hitem : zip3 email_bodies email_subjects to_emails !! i
                  = Some (body, subject, to_email)) by now apply zip3_lookup.
  rewrite <- (take_drop_middle _ _ _ Hitem), for_each_app, Hprefix.
  cbn [for_each]. unfold bind. rewrite send_one_run.
  rewrite create_message_run in Hmsg. cbn [fst] in Hmsg. rewrite Hmsg. cbn zeta.
  replace (trace (log (advance w_i) (EvSend "me" message)))
    with (trace w_i ++ [EvSend "me" message]) by reflexivity.
  rewrite Hfail. eexists. repeat split.
  - now rewrite send_calls_log.
  - destruct (for_each_ok_calls E sender _ _ _ Hprefix) as (calls & Ho & Hc & _).
    rewrite Hc, send_calls_authorized, List.length_app.
    rewrite (sent_in_order_length _ _ _ _ _ Ho), length_take.
    apply lookup_lt_Some in Hitem. lia.
Qed.

Lemma send_message_aborts_at_first_failure_witness :
  exists w',
    SendEmails.send_message second_send_fails
      ["<p>one</p>"; "<p>two</p>"; "<p>three</p>"] ["First"; "Second"; "Third"]
      ["a@x.com"; "b@x.com"; "c@x.com"] initial_world
    = (Raise (LibraryError "googleapiclient" "HttpError 500"), w')
    /\ trace w' = trace world_after_first ++ [EvSend "me" second_message]
    /\ send_calls w' = send_calls world_after_first ++ [second_message]
    /\ length (send_calls world_after_first) = length (send_calls initial_world) + 1.
Proof.
  apply (send_message_aborts_at_first_failure second_send_fails
           ["<p>one</p>"; "<p>two</p>"; "<p>three</p>"] ["First"; "Second"; "Third"]
           ["a@x.com"; "b@x.com"; "c@x.com"] 1 "<p>two</p>" "Second" "b@x.com"
           initial_world world_after_first second_message).
  - reflexivity.
  - reflexivity.
  - reflexivity.
  - vm_compute. reflexivity.
  - vm_compute. reflexivity.
  - vm_compute. reflexivity.
Defined.

Lemma collect_complete data bodies subjects tos : forall b s t w,
  map (lookup "emailHtml") data = map Some bodies ->
  map (lookup "emailSubject") data = map Some subjects ->
  map (lookup "USER_EMAIL") data = map Some tos ->
  ArchiveApp.collect data b s t w = (Ok (b ++ bodies, s ++ subjects, t ++ tos), w).
Proof.
  revert bodies subjects tos.
  induction data as [|d data IH]; intros [|x bodies] [|y subjects] [|z tos] b s t w;
    cbn [map]; try discriminate.
  - intros _ _ _. cbn. now rewrite !List.app_nil_r.
  - intros [= Hx Hb] [= Hy Hs] [= Hz Ht]. cbn [ArchiveApp.collect].
    unfold bind, getitem. rewrite Hx, Hy, Hz. cbn.
    rewrite (IH bodies subjects tos) by assumption.
    now rewrite <- !List.app_assoc.
Qed.

Lemma collect_lacks_key data : forall b s t w,
  Exists lacks_key data ->
  exists key, In key descriptor_keys
              /\ ArchiveApp.collect data b s t w = (Raise (KeyError key), w).
Proof.
  induction data as [|d data IH]; intros b s t w Hex.
  - inversion Hex.
  - cbn [ArchiveApp.collect]. unfold bind, getitem.
    destruct (d !! "emailHtml") as [html|] eqn:Hh.
    2:{ exists "emailHtml". split; [cbn; auto | reflexivity]. }
    destruct (d !! "emailSubject") as [subject|] eqn:Hs.
    2:{ exists "emailSubject". split; [cbn; auto | reflexivity]. }
    destruct (d !! "USER_EMAIL") as [to|] eqn:Ht.
    2:{ exists "USER_EMAIL". split; [cbn; auto | reflexivity]. }
    cbn. apply IH. inversion Hex as [? ? Hd|? ? Hrest]; subst; [|exact Hrest].
    unfold lacks_key in Hd. rewrite Hh, Hs, Ht in Hd.
    destruct Hd as [Hd|[Hd|Hd]]; discriminate.
Qed.

Lemma send_emails_run E data bodies subjects tos w :
  map (lookup "emailHtml") data = map Some bodies ->
  map (lookup "emailSubject") data = map Some subjects ->
  map (lookup "USER_EMAIL") data = map Some tos ->
  ArchiveApp.send_emails E data w
  = match SendEmails.send_message E bodies subjects tos
            (log w (EvPrint (PReceivedBatch data))) with
    | (Ok _, w') => (Ok ArchiveApp.confirmation, w')
    | (Raise e, w') => (Raise e, w')
    end.
Proof.
  intros Hb Hs Ht. unfold ArchiveApp.send_emails, bind, print, emit.
  rewrite (collect_complete data bodies subjects tos) by assumption. cbn [app].
  destruct (SendEmails.send_message _ _ _ _ _) as [[[]|e] w']; reflexivity.
Qed.

(** C10.  When a descriptor of the batch lacks one of the three keys,
    [send_emails] raises [KeyError] for one of them, and all it has done by
    then is print the batch: no authorization call and no send call has been
    issued. *)
Theorem send_emails_rejects_incomplete_batch
  (E : Env) (allEmailData : list (gmap string string)) (w : World) :
  Exists lacks_key allEmailData ->
  exists key w',
    In key descriptor_keys
    /\ ArchiveApp.send_emails E allEmailData w = (Raise (KeyError key), w')
    /\ trace w' = trace w ++ [EvPrint (PReceivedBatch allEmailData)]
    /\ send_calls w' = send_calls w
    /\ List.filter is_authorization (trace w') = List.filter is_authorization (trace w).
Proof.
  intros Hex.
  destruct (collect_lacks_key allEmailData [] [] []
              (log w (EvPrint (PReceivedBatch allEmailData))) Hex) as (key & Hin & Hrun).
  exists key, (log w (EvPrint (PReceivedBatch allEmailData))).
  split; [exact Hin|]. split.
  - unfold ArchiveApp.send_emails, bind, print, emit. now rewrite Hrun.
  - split; [reflexivity|]. split.
    + rewrite send_calls_log. apply List.app_nil_r.
    + cbn [log trace]. rewrite List.filter_app. cbn. apply List.app_nil_r.
Qed.

Lemma send_emails_rejects_incomplete_batch_witness :
  exists key w',
    In key descriptor_keys
    /\ ArchiveApp.send_emails (cooperative 7) incomplete_batch initial_world
       = (Raise (KeyError key), w')
    /\ trace w' = trace initial_world ++ [EvPrint (PReceivedBatch incomplete_batch)]
    /\ send_calls w' = send_calls initial_world
    /\ List.filter is_authorization (trace w') = List.filter is_authorization (trace initial_world).
Proof.
  apply (send_emails_rejects_incomplete_batch (cooperative 7) incomplete_batch initial_world).
  apply Exists_cons_tl, Exists_cons_hd. right. right. reflexivity.
Defined.








Lemma get_snowflake_connection_run E w :
  get_snowflake_connection E w
  = match snowflake_connection w with
    | Some c => (Ok c, w)
    | None =>
        match snowflake_connect E (trace w ++ [EvConnect config]) with
        | Some e => (Raise e, log w (EvConnect config))
        | None => (Ok (created w), established w)
        end
    end.
Proof.
  unfold get_snowflake_connection, bind, hasattr_connection, getattr_connection.
  destruct (snowflake_connection w) as [c|] eqn:Hc; cbn.
  - now rewrite Hc.
  - unfold connect, bind, emit. cbn. rewrite Hc.
    destruct (snowflake_connect E _); reflexivity.
Qed.

Lemma fetch_data_as_json_run E sql w :
  fetch_data_as_json E sql w
  = match get_snowflake_connection E w with
    | (Ok c, w') =>
        (snowflake_query E (trace w' ++ [EvQuery c sql]), log w' (EvQuery c sql))
    | (Raise e, w') => (Raise e, w')
    end.
Proof.
  unfold fetch_data_as_json, bind, ask, emit.
  destruct (get_snowflake_connection E w) as [[c|e] w']; reflexivity.
Qed.

Lemma handler_run {A} e w :
  (print (PError e) ;;;
   connection <- getattr_connection ;;
   close connection ;;;
   delattr_connection ;;;
   (raise e : M A))%M w
  = match snowflake_connection w with
    | Some c => (Raise e, discarded w c e)
    | None => (Raise (AttributeError "snowflake_connection"), log w (EvPrint (PError e)))
    end.
Proof.
  unfold bind, print, emit, getattr_connection, close, delattr_connection, raise, bind, emit.
  cbn. destruct (snowflake_connection w) as [c|] eqn:Hc; [|reflexivity].
  cbn. rewrite Hc. reflexivity.
Qed.

Lemma process_snowflake_query_run E get_sql w :
  process_snowflake_query E get_sql w
  = let fail e w' :=
      match snowflake_connection w' with
      | Some c => (Raise e, discarded w' c e)
      | None => (Raise (AttributeError "snowflake_connection"),
                 log w' (EvPrint (PError e)))
      end in
    match get_sql with
    | Raise e => fail e w
    | Ok sql =>
        match fetch_data_as_json E sql w with
        | (Raise e, w') => fail e w'
        | (Ok json_data, w') =>
            match json_loads E json_data with
            | Raise e => fail e w'
            | Ok parsed_data => (Ok parsed_data, log w' (EvPrint (PJson parsed_data)))
            end
        end
    end.
Proof.
  unfold process_snowflake_query, try_except. cbn zeta.
  unfold bind at 1. unfold lift at 1.
  destruct get_sql as [sql|e]; [|apply handler_run].
  unfold bind at 1. destruct (fetch_data_as_json E sql w) as [[json_data|e] w'];
    [|apply handler_run].
  unfold bind at 1. unfold lift at 1.
  destruct (json_loads E json_data) as [parsed|e]; [|apply handler_run].
  reflexivity.
Qed.

(** C2, the failure of connection creation.  When no connection is
    recorded and [snowflake.connector.connect] raises [e],
    [process_snowflake_query] prints the error and then raises
    [AttributeError] from its handler: the caller does not get [e]. *)
Theorem process_snowflake_query_masks_connect_error
  (E : Env) (sql : string) (w : World) (e : exn) :
  snowflake_connection w = None ->
  snowflake_connect E (trace w ++ [EvConnect config]) = Some e ->
  process_snowflake_query E (Ok sql) w
  = (Raise (AttributeError "snowflake_connection"),
     log (log w (EvConnect config)) (EvPrint (PError e))).
Proof.
  intros Hnone Hfail. rewrite process_snowflake_query_run. cbn zeta.
  rewrite fetch_data_as_json_run, get_snowflake_connection_run, Hnone, Hfail.
  cbn. now rewrite Hnone.
Qed.

Lemma process_snowflake_query_masks_connect_error_witness :
  process_snowflake_query unreachable_warehouse (Ok "SELECT 1") initial_world
  = (Raise (AttributeError "snowflake_connection"),
     log (log initial_world (EvConnect config))
         (EvPrint (PError (LibraryError "snowflake" "OperationalError")))).
Proof.
  apply (process_snowflake_query_masks_connect_error unreachable_warehouse "SELECT 1"
           initial_world (LibraryError "snowflake" "OperationalError")); reflexivity.
Defined.














Lemma extends_refl allowed w : extends allowed w w.
Proof. exists []. split; [now rewrite List.app_nil_r | reflexivity]. Qed.

Lemma extends_trans allowed w1 w2 w3 :
  extends allowed w1 w2 -> extends allowed w2 w3 -> extends allowed w1 w3.
Proof.
  intros (t1 & H1 & A1) (t2 & H2 & A2). exists (t1 ++ t2). split.
  - now rewrite H2, H1, <- List.app_assoc.
  - rewrite forallb_app. now rewrite A1, A2.
Qed.

Lemma extends_log allowed w ev : allowed ev = true -> extends allowed w (log w ev).
Proof. intros H. exists [ev]. split; [reflexivity | cbn; now rewrite H]. Qed.

Lemma extends_advance allowed w : extends allowed w (advance w).
Proof. exists []. split; [cbn; now rewrite List.app_nil_r | reflexivity]. Qed.

Lemma same_warehouse_refl w : same_warehouse w w.
Proof. repeat split. Qed.

Lemma same_warehouse_trans w1 w2 w3 :
  same_warehouse w1 w2 -> same_warehouse w2 w3 -> same_warehouse w1 w3.
Proof. intros (? & ? & ?) (? & ? & ?). repeat split; congruence. Qed.

Lemma send_one_same_warehouse E s item w :
  same_warehouse w (snd (SendEmails.send_one E s item w)).
Proof.
  destruct item as [[b subj] to]. rewrite send_one_run.
  destruct (create_message_with _ _ _ _ _ _) as [message|e]; [|repeat split].
  cbn zeta. destruct (gmail_send E _) as [result|e]; [|repeat split].
  destruct (result !! "id"); repeat split.
Qed.

Lemma send_one_extends allowed E s item w :
  (forall user message, allowed (EvSend user message) = true) ->
  (forall p, allowed (EvPrint p) = true) ->
  extends allowed w (snd (SendEmails.send_one E s item w)).
Proof.
  intros Hsend Hprint. destruct item as [[b subj] to]. rewrite send_one_run.
  destruct (create_message_with _ _ _ _ _ _) as [message|e]; [|apply extends_advance].
  cbn zeta.
  assert (H1 : extends allowed w (log (advance w) (EvSend "me" message))).
  { eapply extends_trans; [apply extends_advance | apply extends_log, Hsend]. }
  destruct (gmail_send E _) as [result|e]; [|exact H1].
  destruct (result !! "id") as [id|]; [|exact H1].
  eapply extends_trans; [exact H1 | apply extends_log, Hprint].
Qed.

Lemma for_each_same_warehouse E s items : forall w,
  same_warehouse w (snd (for_each items (SendEmails.send_one E s) w)).
Proof.
  induction items as [|item items IH]; intros w; [apply same_warehouse_refl|].
  cbn [for_each]. unfold bind.
  pose proof (send_one_same_warehouse E s item w) as H1.
  destruct (SendEmails.send_one E s item w) as [[[]|e] w1]; cbn [snd] in *; [|exact H1].
  eapply same_warehouse_trans; [exact H1 | apply IH].
Qed.

Lemma for_each_extends allowed E s items :
  (forall user message, allowed (EvSend user message) = true) ->
  (forall p, allowed (EvPrint p) = true) ->
  forall w, extends allowed w (snd (for_each items (SendEmails.send_one E s) w)).
Proof.
  intros Hsend Hprint.
  induction items as [|item items IH]; intros w; [apply extends_refl|].
  cbn [for_each]. unfold bind.
  pose proof (send_one_extends allowed E s item w Hsend Hprint) as H1.
  destruct (SendEmails.send_one E s item w) as [[[]|e] w1]; cbn [snd] in *; [|exact H1].
  eapply extends_trans; [exact H1 | apply IH].
Qed.

Lemma extends_authorized allowed w :
  (forall ev, is_authorization ev = true -> allowed ev = true) ->
  extends allowed w (authorized w).
Proof.
  intros H. eapply extends_trans; [|apply extends_log, H; reflexivity].
  eapply extends_trans; apply extends_log, H; reflexivity.
Qed.

Lemma send_message_frame E bodies subjects tos w :
  let w' := snd (SendEmails.send_message E bodies subjects tos w) in
  same_warehouse w w' /\ extends not_warehouse w w'.
Proof.
  cbn zeta. rewrite send_message_run. cbn zeta.
  destruct (oauth_from_client_secrets_file E _).
  { split; [repeat split | now apply extends_log]. }
  destruct (oauth_run_local_server E _).
  { split; [repeat split|]. eapply extends_trans; now apply extends_log. }
  assert (Hauth : extends not_warehouse w (authorized w)).
  { apply extends_authorized. now intros []. }
  destruct (gmail_build E _); [split; [repeat split | exact Hauth]|].
  split.
  - eapply same_warehouse_trans; [|apply for_each_same_warehouse]. repeat split.
  - eapply extends_trans; [exact Hauth | now apply for_each_extends].
Qed.

(** X1.  Whatever the environment does, [send_message] leaves the state
    of the warehouse client as it is and issues no call to the warehouse. *)
Theorem send_message_leaves_warehouse_alone
  (E : Env) (email_bodies email_subjects to_emails : list string) (w : World) :
  let w' := snd (SendEmails.send_message E email_bodies email_subjects to_emails w) in
  snowflake_connection w' = snowflake_connection w
  /\ open_sessions w' = open_sessions w
  /\ created w' = created w
  /\ exists tail, trace w' = trace w ++ tail
                  /\ forallb (fun ev => negb (warehouse_event ev)) tail = true.
Proof.
  cbn zeta.
  destruct (send_message_frame E email_bodies email_subjects to_emails w)
    as [(H1 & H2 & H3) H4].
  auto.
Qed.

(** ** The calls of a batch, whatever the environment *)

Lemma send_calls_advance w : send_calls (advance w) = send_calls w.
Proof. reflexivity. Qed.

Lemma for_each_sends_prefix E s items : forall w,
  let r := for_each items (SendEmails.send_one E s) w in
  exists calls,
    send_calls (snd r) = send_calls w ++ calls
    /\ length calls <= length items
    /\ sent_in_order E s (draws w) (take (length calls) items) calls
    /\ (fst r = Ok tt -> length calls = length items).
Proof.
  induction items as [|item items IH]; intros w; cbn zeta.
  - exists []. cbn. rewrite List.app_nil_r. repeat split; auto. constructor.
  - cbn [for_each]. unfold bind. destruct item as [[b subj] to].
    rewrite send_one_run.
    destruct (create_message_with _ _ _ _ _ _) as [message|e] eqn:Hm.
    2:{ exists []. cbn [snd fst length take]. rewrite send_calls_advance, List.app_nil_r.
        repeat split; [lia | constructor | discriminate]. }
    cbn zeta.
    assert (Hone : sent_in_order E s (draws w) [(b, subj, to)] [message]).
    { constructor; [exact Hm | constructor]. }
    destruct (gmail_send E _) as [result|e].
    2:{ exists [message]. cbn [snd fst]. rewrite send_calls_log, send_calls_advance.
        repeat split; [cbn; lia | exact Hone | discriminate]. }
    destruct (result !! "id") as [id|].
    2:{ exists [message]. cbn [snd fst]. rewrite send_calls_log, send_calls_advance.
        repeat split; [cbn; lia | exact Hone | discriminate]. }
    destruct (IH (log (log (advance w) (EvSend "me" message)) (sent_line id to)))
      as (calls & Hc & Hle & Ho & Hok).
    exists (message :: calls). repeat split.
    + rewrite Hc, !send_calls_log, send_calls_advance. cbn.
      now rewrite List.app_nil_r, <- List.app_assoc.
    + cbn. lia.
    + cbn [length take]. constructor; [exact Hm | exact Ho].
    + intros H. cbn. f_equal. apply Hok, H.
Qed.

(** X2.  Whatever the environment does, the send calls [send_message]
    issues are the messages built from a prefix of the zipped input, in
    input order, one random token each: never more calls than the shortest
    sequence has elements, and exactly that many when it returns. *)
Theorem send_message_sends_prefix
  (E : Env) (email_bodies email_subjects to_emails : list string) (w : World) :
  let items := zip3 email_bodies email_subjects to_emails in
  let r := SendEmails.send_message E email_bodies email_subjects to_emails w in
  exists calls,
    send_calls (snd r) = send_calls w ++ calls
    /\ length calls
       <= Nat.min (length email_bodies)
                  (Nat.min (length email_subjects) (length to_emails))
    /\ sent_in_order E sender (draws w) (take (length calls) items) calls
    /\ (fst r = Ok tt -> length calls = length items).
Proof.
  cbn zeta. rewrite <- zip3_length. rewrite send_message_run. cbn zeta.
  assert (Hnone : forall (e : exn) w0, send_calls w0 = send_calls w ->
    exists calls,
      send_calls (snd (Raise e : Exc unit, w0)) = send_calls w ++ calls
      /\ length calls <= length (zip3 email_bodies email_subjects to_emails)
      /\ sent_in_order E sender (draws w)
           (take (length calls) (zip3 email_bodies email_subjects to_emails)) calls
      /\ (fst (Raise e : Exc unit, w0) = Ok tt
          -> length calls = length (zip3 email_bodies email_subjects to_emails))).
  { intros e w0 H0. exists []. cbn [snd fst length take]. rewrite H0, List.app_nil_r.
    repeat split; [lia | constructor | discriminate]. }
  destruct (oauth_from_client_secrets_file E _);
    [apply Hnone; rewrite send_calls_log; apply List.app_nil_r|].
  destruct (oauth_run_local_server E _);
    [apply Hnone; rewrite !send_calls_log; now rewrite !List.app_nil_r|].
  destruct (gmail_build E _); [apply Hnone, send_calls_authorized|].
  destruct (for_each_sends_prefix E sender (zip3 email_bodies email_subjects to_emails)
              (authorized w)) as (calls & Hc & Hle & Ho & Hok).
  exists calls. rewrite send_calls_authorized in Hc. auto.
Qed.


(** ** Failures inside the loop *)

(** The call for position [i], once the positions before it are done. *)
Lemma send_message_at E bodies subjects tos i body subject to_email w w_i :
  bodies !! i = Some body ->
  subjects !! i = Some subject ->
  tos !! i = Some to_email ->
  SendEmails.send_message E (take i bodies) (take i subjects) (take i tos) w
  = (Ok tt, w_i) ->
  SendEmails.send_message E bodies subjects tos w
  = (SendEmails.send_one E sender (body, subject, to_email) ;;;
     for_each (drop (S i) (zip3 bodies subjects tos)) (SendEmails.send_one E sender))%M w_i
  /\ length (send_calls w_i) = length (send_calls w) + i.
Proof.
  intros Hb Hs Ht Hprefix.
  apply send_message_ok in Hprefix as [Hauth Hprefix].
  rewrite Hauth. rewrite zip3_take in Hprefix.
  assert (Hitem : zip3 bodies subjects tos !! i = Some (body, subject, to_email))
    by now apply zip3_lookup.
  split.
  - rewrite <- (take_drop_middle _ _ _ Hitem) at 1. rewrite for_each_app, Hprefix.
    reflexivity.
  - destruct (for_each_ok_calls E sender _ _ _ Hprefix) as (calls & Ho & Hc & _).
    rewrite Hc, send_calls_authorized, List.length_app.
    rewrite (sent_in_order_length _ _ _ _ _ Ho), length_take.
    apply lookup_lt_Some in Hitem. lia.
Qed.

(** X4.  When the response to the send call for position [i] has no
    [id] field, [send_message] raises [KeyError] for [id]: that message has
    been handed to the mail service, no line is printed for it, and no call
    is made for a later position. *)
Theorem send_message_response_without_id
  (E : Env) (email_bodies email_subjects to_emails : list string) (i : nat)
  (body subject to_email : string) (w w_i : World)
  (message result : gmap string string) :
  email_bodies !! i = Some body ->
  email_subjects !! i = Some subject ->
  to_emails !! i = Some to_email ->
  SendEmails.send_message E (take i email_bodies) (take i email_subjects)
    (take i to_emails) w = (Ok tt, w_i) ->
  fst (SendEmails.create_message E sender to_email subject body w_i) = Ok message ->
  gmail_send E (trace w_i ++ [EvSend "me" message]) = Ok result ->
  result !! "id" = None ->
  exists w',
    SendEmails.send_message E email_bodies email_subjects to_emails w
    = (Raise (KeyError "id"), w')
    /\ trace w' = trace w_i ++ [EvSend "me" message]
    /\ send_calls w' = send_calls w_i ++ [message]
    /\ length (send_calls w_i) = length (send_calls w) + i.
Proof.
  intros Hb Hs Ht Hprefix Hmsg Hsend Hid.
  destruct (send_message_at E _ _ _ _ _ _ _ _ _ Hb Hs Ht Hprefix) as [-> Hlen].
  unfold bind. rewrite send_one_run.
  rewrite create_message_run in Hmsg. cbn [fst] in Hmsg. rewrite Hmsg. cbn zeta.
  replace (trace (log (advance w_i) (EvSend "me" message)))
    with (trace w_i ++ [EvSend "me" message]) by reflexivity.
  rewrite Hsend, Hid. eexists. repeat split.
  - now rewrite send_calls_log.
  - exact Hlen.
Qed.

Lemma send_message_response_without_id_witness :
  exists w',
    SendEmails.send_message second_response_without_id
      ["<p>one</p>"; "<p>two</p>"; "<p>three</p>"] ["First"; "Second"; "Third"]
      ["a@x.com"; "b@x.com"; "c@x.com"] initial_world
    = (Raise (KeyError "id"), w')
    /\ trace w' = trace world_after_one ++ [EvSend "me" second_call]
    /\ send_calls w' = send_calls world_after_one ++ [second_call]
    /\ length (send_calls world_after_one) = length (send_calls initial_world) + 1.
Proof.
  apply (send_message_response_without_id second_response_without_id
           ["<p>one</p>"; "<p>two</p>"; "<p>three</p>"] ["First"; "Second"; "Third"]
           ["a@x.com"; "b@x.com"; "c@x.com"] 1 "<p>two</p>" "Second" "b@x.com"
           initial_world world_after_one second_call {[ "threadId" := "18c" ]}).
  - reflexivity.
  - reflexivity.
  - reflexivity.
  - vm_compute. reflexivity.
  - vm_compute. reflexivity.
  - vm_compute. reflexivity.
  - reflexivity.
Defined.

(** X5.  When the message for position [i] cannot be built (the email
    policy rejects a header value), [send_message] raises that error before
    any send call for position [i]: exactly the [i] messages before it have
    been sent. *)
Theorem send_message_unbuildable_message
  (E : Env) (email_bodies email_subjects to_emails : list string) (i : nat)
  (body subject to_email : string) (w w_i : World) (e : exn) :
  email_bodies !! i = Some body ->
  email_subjects !! i = Some subject ->
  to_emails !! i = Some to_email ->
  SendEmails.send_message E (take i email_bodies) (take i email_subjects)
    (take i to_emails) w = (Ok tt, w_i) ->
  fst (SendEmails.create_message E sender to_email subject body w_i) = Raise e ->
  exists w',
    SendEmails.send_message E email_bodies email_subjects to_emails w = (Raise e, w')
    /\ trace w' = trace w_i
    /\ send_calls w' = send_calls w_i
    /\ length (send_calls w_i) = length (send_calls w) + i.
Proof.
  intros Hb Hs Ht Hprefix Hmsg.
  destruct (send_message_at E _ _ _ _ _ _ _ _ _ Hb Hs Ht Hprefix) as [-> Hlen].
  unfold bind. rewrite send_one_run.
  rewrite create_message_run in Hmsg. cbn [fst] in Hmsg. rewrite Hmsg.
  eexists. repeat split. exact Hlen.
Qed.

Lemma send_message_unbuildable_message_witness :
  exists w',
    SendEmails.send_message (cooperative 7)
      ["<p>one</p>"; "<p>two</p>"; "<p>three</p>"] ["First"; smuggled_subject; "Third"]
      ["a@x.com"; "b@x.com"; "c@x.com"] initial_world
    = (Raise (LibraryError "email" "HeaderParseError"), w')
    /\ trace w' = trace world_after_first_ok
    /\ send_calls w' = send_calls world_after_first_ok
    /\ length (send_calls world_after_first_ok) = length (send_calls initial_world) + 1.
Proof.
  apply (send_message_unbuildable_message (cooperative 7)
           ["<p>one</p>"; "<p>two</p>"; "<p>three</p>"] ["First"; smuggled_subject; "Third"]
           ["a@x.com"; "b@x.com"; "c@x.com"] 1 "<p>two</p>" smuggled_subject "b@x.com"
           initial_world world_after_first_ok).
  - reflexivity.
  - reflexivity.
  - reflexivity.
  - vm_compute. reflexivity.
  - vm_compute. reflexivity.
Defined.

Lemma collect_first_missing before : forall d after key b s t w,
  Forall (fun d => first_missing d = None) before ->
  first_missing d = Some key ->
  ArchiveApp.collect (before ++ d :: after) b s t w = (Raise (KeyError key), w).
Proof.
  induction before as [|d0 before IH]; intros d after key b s t w Hall Hd.
  - cbn [app ArchiveApp.collect]. unfold bind, getitem. unfold first_missing in Hd.
    destruct (d !! "emailHtml"); [|injection Hd as <-; reflexivity].
    destruct (d !! "emailSubject"); [|injection Hd as <-; reflexivity].
    destruct (d !! "USER_EMAIL"); [discriminate|injection Hd as <-; reflexivity].
  - apply Forall_cons in Hall as [H0 Hall].
    cbn [app ArchiveApp.collect]. unfold bind, getitem. unfold first_missing in H0.
    destruct (d0 !! "emailHtml"); [|discriminate].
    destruct (d0 !! "emailSubject"); [|discriminate].
    destruct (d0 !! "USER_EMAIL"); [|discriminate].
    cbn. now apply IH.
Qed.

(** X6.  The [KeyError] of [send_emails] names the first key, in the order
    [emailHtml], [emailSubject], [USER_EMAIL], that the first incomplete
    descriptor of the array lacks; what follows that descriptor is not
    looked at. *)
Theorem send_emails_reports_first_missing_key
  (E : Env) (before after : list (gmap string string)) (d : gmap string string)
  (key : string) (w : World) :
  Forall (fun d => first_missing d = None) before ->
  first_missing d = Some key ->
  ArchiveApp.send_emails E (before ++ d :: after) w
  = (Raise (KeyError key), log w (EvPrint (PReceivedBatch (before ++ d :: after)))).
Proof.
  intros Hall Hd. unfold ArchiveApp.send_emails, bind, print, emit.
  now rewrite (collect_first_missing before d after key).
Qed.

Lemma send_emails_reports_first_missing_key_witness :
  ArchiveApp.send_emails (cooperative 7)
    ([ {[ "emailHtml" := "<p>one</p>"; "emailSubject" := "First";
          "USER_EMAIL" := "a@x.com" ]} ]
     ++ {[ "emailHtml" := "<p>two</p>"; "USER_EMAIL" := "b@x.com" ]}
     :: [ (∅ : gmap string string) ]) initial_world
  = (Raise (KeyError "emailSubject"),
     log initial_world
       (EvPrint (PReceivedBatch
          ([ {[ "emailHtml" := "<p>one</p>"; "emailSubject" := "First";
                "USER_EMAIL" := "a@x.com" ]} ]
           ++ {[ "emailHtml" := "<p>two</p>"; "USER_EMAIL" := "b@x.com" ]}
           :: [ (∅ : gmap string string) ])))).
Proof.
  apply (send_emails_reports_first_missing_key (cooperative 7)
           [ {[ "emailHtml" := "<p>one</p>"; "emailSubject" := "First";
                "USER_EMAIL" := "a@x.com" ]} ]
           [ ∅ ]
           {[ "emailHtml" := "<p>two</p>"; "USER_EMAIL" := "b@x.com" ]}
           "emailSubject" initial_world).
  - repeat constructor.
  - reflexivity.
Defined.

(** X7.  On an empty array [send_emails] still runs the whole
    authorization; when that succeeds it answers with the confirmation and
    has sent nothing. *)
Theorem send_emails_empty_batch_authorizes (E : Env) (w : World) :
  authorizes E ->
  ArchiveApp.send_emails E [] w
  = (Ok ArchiveApp.confirmation, authorized (log w (EvPrint (PReceivedBatch []))))
  /\ send_calls (authorized (log w (EvPrint (PReceivedBatch [])))) = send_calls w
  /\ List.filter is_authorization
       (trace (authorized (log w (EvPrint (PReceivedBatch [])))))
     = List.filter is_authorization (trace w) ++ authorization_calls.
Proof.
  intros Ha. split; [|split].
  - rewrite (send_emails_run E [] [] [] []) by reflexivity.
    rewrite send_message_run. cbn zeta.
    destruct (Ha (trace (log w (EvPrint (PReceivedBatch [])))
                  ++ [EvFromClientSecretsFile "credentials.json" SendEmails.SCOPES]))
      as (-> & _ & _).
    destruct (Ha (trace (log (log w (EvPrint (PReceivedBatch [])))
                          (EvFromClientSecretsFile "credentials.json" SendEmails.SCOPES))
                  ++ [EvRunLocalServer 0])) as (_ & -> & _).
    destruct (Ha (trace (log (log (log w (EvPrint (PReceivedBatch [])))
                               (EvFromClientSecretsFile "credentials.json"
                                  SendEmails.SCOPES)) (EvRunLocalServer 0))
                  ++ [EvBuild "gmail" "v1"])) as (_ & _ & ->).
    reflexivity.
  - rewrite send_calls_authorized, send_calls_log. apply List.app_nil_r.
  - rewrite trace_authorized. cbn [log trace]. rewrite !List.filter_app. cbn.
    now rewrite List.app_nil_r.
Qed.

Lemma send_emails_empty_batch_authorizes_witness :
  ArchiveApp.send_emails (cooperative 7) [] initial_world
  = (Ok ArchiveApp.confirmation,
     authorized (log initial_world (EvPrint (PReceivedBatch [])))).
Proof.
  apply (send_emails_empty_batch_authorizes (cooperative 7) initial_world).
  apply cooperative_authorizes.
Defined.


(** ** Headers that fit on one line *)

Lemma acc_str_app a b : Email.acc_str (a ++ b) = Email.acc_str a ++ Email.acc_str b.
Proof. unfold Email.acc_str. apply flat_map_app. Qed.

Lemma acc_str_chunks_go cs : forall w t,
  Email.acc_str (Email.chunks_go cs w t) = rev w ++ rev t ++ cs.
Proof.
  induction cs as [|c cs IH]; intros w t.
  - cbn [Email.chunks_go]. destruct w as [|x w], t as [|y t]; cbn;
      rewrite ?List.app_nil_r; reflexivity.
  - cbn [Email.chunks_go]. destruct (Email.is_blank c).
    + destruct t as [|y t].
      * rewrite IH. cbn [rev app]. now rewrite <- List.app_assoc.
      * change (Email.acc_str ((rev w, rev (y :: t)) :: Email.chunks_go cs [c] []))
          with ((rev w ++ rev (y :: t)) ++ Email.acc_str (Email.chunks_go cs [c] [])).
        rewrite IH. cbn [rev app]. now rewrite <- !List.app_assoc.
    + rewrite IH. cbn [rev app]. now rewrite <- !List.app_assoc.
Qed.

Lemma acc_str_chunks_of value : Email.acc_str (Email.chunks_of value) = chars value.
Proof.
  unfold Email.chunks_of. destruct (chars value) as [|c rest]; [reflexivity|].
  now rewrite acc_str_chunks_go.
Qed.

Lemma fold_append_chunk_fits cs : forall cur i,
  Email.acc_len i (cur ++ cs) <= Email.MAXLINELEN ->
  fold_left Email.append_chunk cs
    {| Email.f_lines := []; Email.f_current := cur; Email.f_initial := i |}
  = {| Email.f_lines := []; Email.f_current := cur ++ cs; Email.f_initial := i |}.
Proof.
  induction cs as [|c cs IH]; intros cur i Hfit.
  - cbn. now rewrite List.app_nil_r.
  - cbn [fold_left]. unfold Email.append_chunk at 2.
    cbn [Email.f_lines Email.f_current Email.f_initial].
    assert (Hc : (Email.MAXLINELEN <? Email.acc_len i (cur ++ [c])) = false).
    { apply Nat.ltb_ge. unfold Email.acc_len in *.
      rewrite acc_str_app, List.length_app in *.
      change (Email.acc_str (c :: cs)) with (Email.chunk_str c ++ Email.acc_str cs) in Hfit.
      change (Email.acc_str [c]) with (Email.chunk_str c ++ []).
      rewrite List.app_nil_r. rewrite List.length_app in Hfit. lia. }
    rewrite Hc, IH.
    + now rewrite <- List.app_assoc.
    + now rewrite <- List.app_assoc.
Qed.

Lemma header_encode_short name value :
  String.length name + 2 + String.length value <= Email.MAXLINELEN ->
  Email.header_encode name value = value.
Proof.
  intros Hfit. unfold Email.header_encode.
  rewrite (fold_append_chunk_fits (Email.chunks_of value) [] (String.length name + 2)).
  2:{ unfold Email.acc_len. cbn [app]. rewrite acc_str_chunks_of, length_chars. lia. }
  cbn [Email.f_lines Email.f_current Email.f_initial app].
  unfold Email.newline. cbn [Email.f_lines Email.f_current Email.f_initial].
  rewrite rev_app_distr. cbn [rev app]. rewrite rev_involutive.
  replace (Email.chunk_eqb ([" "%char], []) ([" "%char], [])) with true by reflexivity.
  assert (Hpos : (0 <? Email.acc_len (String.length name + 2) (Email.chunks_of value)) = true).
  { apply Nat.ltb_lt. unfold Email.acc_len. lia. }
  rewrite Hpos.
  assert (Hinit : (String.length name + 2 =? 0) = false) by (apply Nat.eqb_neq; lia).
  rewrite Hinit. cbn [andb app map join].
  rewrite acc_str_chunks_of. apply of_chars_chars.
Qed.

Lemma fold_binary_short fo name value :
  Email.header_safe value = true ->
  String.length name + 2 + String.length value <= Email.MAXLINELEN ->
  Email.fold_binary fo name value = Ok (name +:+ ": " +:+ value +:+ nl).
Proof.
  intros Hsafe Hfit. unfold Email.fold_binary.
  now rewrite Hsafe, header_encode_short.
Qed.



(** ** The body *)

Lemma write_lines_chars_id l : ~ In CR l -> Email.write_lines_chars l = l.
Proof.
  induction l as [|c l IH]; intros Hno; [reflexivity|].
  cbn [Email.write_lines_chars].
  destruct (Ascii.eqb_spec c CR) as [->|Hc].
  - exfalso. apply Hno. now left.
  - rewrite IH; [reflexivity|]. intros Hin. apply Hno. now right.
Qed.

Lemma write_lines_id s : ~ In CR (chars s) -> Email.write_lines s = s.
Proof.
  intros H. unfold Email.write_lines. rewrite write_lines_chars_id by exact H.
  apply of_chars_chars.
Qed.

Lemma write_lines_chars_no_cr l : ~ In CR (Email.write_lines_chars l).
Proof.
  assert (H : forall n l, length l <= n -> ~ In CR (Email.write_lines_chars l)).
  { induction n as [|n IH]; intros [|c k] Hlen; cbn [length] in Hlen;
      try (intros []); try lia.
    cbn [Email.write_lines_chars].
    destruct (Ascii.eqb_spec c CR) as [->|Hc].
    - intros [Hin|Hin]; [discriminate|].
      destruct k as [|d k']; [destruct Hin|].
      destruct (Ascii.eqb d NL); revert Hin; apply IH; cbn [length] in *; lia.
    - intros [Hin|Hin]; [congruence|]. revert Hin. apply IH. lia. }
  apply (H (length l)). lia.
Qed.

Lemma html_part_text_ascii html :
  is_7bit html = true -> html_part_text html = ascii_part (Email.write_lines html).
Proof.
  intros H. rewrite html_part_text_layout.
  unfold charset_of, transfer_encoding_of, payload_of, ascii_part. now rewrite H.
Qed.

(** X9.  A 7-bit body reaches the message with its line breaks written as
    newlines and otherwise unchanged: a body without carriage returns is
    the payload of the HTML part as it stands, and the written payload never
    holds a carriage return. *)
Theorem create_message_carries_ascii_body
  (E : Env) (sender to subject html : string) (w : World) (out : gmap string string) :
  is_7bit html = true ->
  fst (SendEmails.create_message E sender to subject html w) = Ok out ->
  exists header_lines,
    decoded_output (Ok out)
    = Some (message_bytes
              (Email.make_boundary (randrange E (draws w))
                 (ascii_part (Email.write_lines html)))
              header_lines (ascii_part (Email.write_lines html)))
    /\ ~ In CR (chars (Email.write_lines html))
    /\ (~ In CR (chars html) -> Email.write_lines html = html).
Proof.
  intros H7 Hout. rewrite create_message_eq in Hout. cbn [fst] in Hout.
  rewrite (html_part_text_ascii html H7) in Hout.
  destruct (Email.fold_binary (fold_other E) "to" to) as [to_line|]; [|discriminate].
  destruct (Email.fold_binary (fold_other E) "from" sender) as [from_line|]; [|discriminate].
  destruct (Email.fold_binary (fold_other E) "subject" subject) as [subject_line|];
    [|discriminate].
  cbn [exc_bind] in Hout. injection Hout as <-.
  exists (to_line +:+ from_line +:+ subject_line +:+ bcc_line). split; [|split].
  - unfold decoded_output. rewrite lookup_singleton_eq. apply urlsafe_b64decode_encode.
  - unfold Email.write_lines. rewrite chars_of_chars. apply write_lines_chars_no_cr.
  - apply write_lines_id.
Qed.

Lemma create_message_carries_ascii_body_witness :
  exists header_lines,
    decoded_output (Ok hello_message)
    = Some (message_bytes
              (Email.make_boundary (randrange (cooperative 7) (draws initial_world))
                 (ascii_part (Email.write_lines "<p>hi</p>")))
              header_lines (ascii_part (Email.write_lines "<p>hi</p>")))
    /\ ~ In CR (chars (Email.write_lines "<p>hi</p>"))
    /\ (~ In CR (chars "<p>hi</p>") -> Email.write_lines "<p>hi</p>" = "<p>hi</p>").
Proof.
  apply (create_message_carries_ascii_body (cooperative 7) "cameron.michie@ably.com"
           "a@x.com" "Hello there" "<p>hi</p>" initial_world hello_message).
  - reflexivity.
  - vm_compute. reflexivity.
Defined.

Lemma char_of_sextet_urlsafe s :
  urlsafe_char (Base64.char_of_sextet Base64.urlsafe s) = true.
Proof. destruct s as [[[[[[] []] []] []] []] []]; reflexivity. Qed.

Lemma encode_chars_urlsafe bs :
  forallb urlsafe_char (Base64.encode_chars Base64.urlsafe bs) = true
  /\ length (Base64.encode_chars Base64.urlsafe bs) = 4 * ((length bs + 2) / 3).
Proof.
  induction bs as [ | a | a b | a b c l [IH1 IH2]] using list_ind3.
  - split; reflexivity.
  - destruct a. cbn [Base64.encode_chars forallb]. rewrite !char_of_sextet_urlsafe.
    split; reflexivity.
  - destruct a, b. cbn [Base64.encode_chars forallb]. rewrite !char_of_sextet_urlsafe.
    split; reflexivity.
  - destruct a, b, c. cbn [Base64.encode_chars forallb length].
    rewrite !char_of_sextet_urlsafe, IH1, IH2. split; [reflexivity|].
    replace (S (S (S (length l))) + 2) with (1 * 3 + (length l + 2)) by lia.
    rewrite Nat.div_add_l by lia. lia.
Qed.

(** X10.  The [raw] value [create_message] returns (in either script) is
    URL-safe base64 text: only letters, digits, [-], [_] and [=], in groups
    of four characters, so without line breaks. *)
Theorem create_message_output_is_urlsafe
  (E : Env) (sender to subject html : string) (w : World) (out : gmap string string) :
  fst (SendEmails.create_message E sender to subject html w) = Ok out
  \/ fst (SendEmailsScript.create_message E sender to subject html w) = Ok out ->
  exists raw,
    out = {[ "raw" := raw ]}
    /\ forallb urlsafe_char (chars raw) = true
    /\ String.length raw mod 4 = 0.
Proof.
  assert (Hraw : forall bytes,
            forallb urlsafe_char (chars (Base64.urlsafe_b64encode bytes)) = true
            /\ String.length (Base64.urlsafe_b64encode bytes) mod 4 = 0).
  { intros bytes. unfold Base64.urlsafe_b64encode, Base64.encode.
    rewrite <- length_chars, chars_of_chars.
    destruct (encode_chars_urlsafe (chars bytes)) as [H1 H2]. split; [exact H1|].
    rewrite H2, Nat.mul_comm. apply Nat.Div0.mod_mul. }
  intros [Hout|Hout];
    [rewrite create_message_eq in Hout | rewrite script_create_message_eq in Hout];
    cbn [fst] in Hout;
    (destruct (Email.fold_binary (fold_other E) "to" to) as [to_line|]; [|discriminate]);
    (destruct (Email.fold_binary (fold_other E) "from" sender) as [from_line|];
       [|discriminate]);
    (destruct (Email.fold_binary (fold_other E) "subject" subject) as [subject_line|];
       [|discriminate]);
    cbn [exc_bind] in Hout; injection Hout as <-;
    eexists; (split; [reflexivity|apply Hraw]).
Qed.

Lemma create_message_output_is_urlsafe_witness :
  exists raw,
    hello_message = {[ "raw" := raw ]}
    /\ forallb urlsafe_char (chars raw) = true
    /\ String.length raw mod 4 = 0.
Proof.
  apply (create_message_output_is_urlsafe (cooperative 7) "cameron.michie@ably.com"
           "a@x.com" "Hello there" "<p>hi</p>" initial_world hello_message).
  left. vm_compute. reflexivity.
Defined.

Lemma char_of_sextet_standard s :
  standard_char (Base64.char_of_sextet Base64.standard s) = true.
Proof. destruct s as [[[[[[] []] []] []] []] []]; reflexivity. Qed.

Lemma encode_chars_standard bs :
  forallb standard_char (Base64.encode_chars Base64.standard bs) = true.
Proof.
  induction bs as [ | a | a b | a b c l IH] using list_ind3.
  - reflexivity.
  - destruct a. cbn [Base64.encode_chars forallb]. now rewrite !char_of_sextet_standard.
  - destruct a, b. cbn [Base64.encode_chars forallb]. now rewrite !char_of_sextet_standard.
  - destruct a, b, c. cbn [Base64.encode_chars forallb].
    now rewrite !char_of_sextet_standard, IH.
Qed.

Lemma standard_char_plain c :
  standard_char c = true -> negb (Ascii.eqb c NL) = true /\ c <> CR.
Proof.
  destruct c as [[] [] [] [] [] [] [] []]; cbn; intros H; try discriminate H;
    split; try reflexivity; discriminate.
Qed.

Lemma filter_plain l :
  forallb standard_char l = true ->
  List.filter (fun c => negb (Ascii.eqb c NL)) l = l /\ ~ In CR l.
Proof.
  induction l as [|c l IH]; cbn [forallb List.filter]; [intros _; split; [reflexivity|intros []]|].
  intros H. apply andb_true_iff in H as [Hc Hl].
  destruct (standard_char_plain c Hc) as [-> Hcr]. destruct (IH Hl) as [-> Hno].
  split; [reflexivity|]. intros [Hin|Hin]; [congruence|contradiction].
Qed.

(** Whole groups of three bytes are encoded on their own. *)
Lemma encode_chars_app al a : forall b,
  length a mod 3 = 0 ->
  Base64.encode_chars al (a ++ b) = Base64.encode_chars al a ++ Base64.encode_chars al b.
Proof.
  induction a as [ | x | x y | x y z l IH] using list_ind3; intros b Hlen.
  - reflexivity.
  - discriminate Hlen.
  - discriminate Hlen.
  - destruct x, y, z. cbn [app Base64.encode_chars]. rewrite IH; [reflexivity|].
    cbn [length] in Hlen.
    replace (S (S (S (length l)))) with (length l + 1 * 3) in Hlen by lia.
    now rewrite Nat.Div0.mod_add in Hlen.
Qed.

Lemma body_encode_chars_step fuel bs :
  bs <> [] ->
  Base64.body_encode_chars (S fuel) bs
  = Base64.encode_chars Base64.standard (firstn 57 bs) ++ [NL]
    ++ Base64.body_encode_chars fuel (skipn 57 bs).
Proof. destruct bs; [congruence | reflexivity]. Qed.

Lemma body_encode_chars_joined fuel : forall bs,
  length bs <= fuel ->
  List.filter (fun c => negb (Ascii.eqb c NL)) (Base64.body_encode_chars fuel bs)
  = Base64.encode_chars Base64.standard bs
  /\ ~ In CR (Base64.body_encode_chars fuel bs).
Proof.
  induction fuel as [|fuel IH]; intros bs Hlen.
  - destruct bs; [split; [reflexivity|intros []]|cbn in Hlen; lia].
  - destruct bs as [|b bs'] eqn:Hbs; [split; [reflexivity|intros []]|].
    assert (Hne : bs <> []) by (rewrite Hbs; discriminate).
    rewrite <- Hbs in *. clear Hbs b bs'.
    rewrite body_encode_chars_step by exact Hne.
    assert (Hpos : 0 < length bs) by (destruct bs; [congruence|cbn; lia]).
    assert (Hskip : length (skipn 57 bs) <= fuel) by (rewrite List.length_skipn; lia).
    destruct (IH _ Hskip) as [IH1 IH2].
    destruct (filter_plain _ (encode_chars_standard (firstn 57 bs))) as [F1 F2].
    split.
    + rewrite !List.filter_app, F1, IH1.
      replace (List.filter (fun c => negb (Ascii.eqb c NL)) [NL]) with (@nil ascii)
        by reflexivity.
      cbn [app].
      destruct (Nat.le_gt_cases 57 (length bs)) as [Hge|Hlt].
      * rewrite <- encode_chars_app.
        -- now rewrite List.firstn_skipn.
        -- rewrite List.length_firstn, Nat.min_l by exact Hge. reflexivity.
      * rewrite List.skipn_all2 by lia. rewrite List.firstn_all2 by lia.
        cbn [Base64.encode_chars]. apply List.app_nil_r.
    + intros Hin. apply in_app_iff in Hin as [Hin|Hin]; [contradiction|].
      cbn [app] in Hin. destruct Hin as [Hin|Hin]; [discriminate|contradiction].
Qed.

Lemma utf8_inj s : forall s', utf8 s = utf8 s' -> s = s'.
Proof.
  assert (H : forall l l', flat_map utf8_char l = flat_map utf8_char l' -> l = l').
  { induction l as [|c l IH]; intros [|c' l'] Heq.
    - reflexivity.
    - destruct c' as [? ? ? ? ? ? ? []]; discriminate Heq.
    - destruct c as [? ? ? ? ? ? ? []]; discriminate Heq.
    - destruct c as [b0 b1 b2 b3 b4 b5 b6 []], c' as [d0 d1 d2 d3 d4 d5 d6 []];
        cbn [flat_map utf8_char app] in Heq; try discriminate Heq;
        injection Heq as Heq; subst; f_equal; now apply IH. }
  intros s' Heq. apply chars_inj, H.
  unfold utf8 in Heq. apply (f_equal chars) in Heq.
  now rewrite !chars_of_chars in Heq.
Qed.

(** X11.  A body with a character outside 7-bit ASCII is carried as the
    base64 text of its UTF-8 encoding under charset utf-8: the payload of
    the HTML part, its newlines taken out, decodes to the UTF-8 bytes of
    the body, and these determine the body. *)
Theorem create_message_carries_utf8_body
  (E : Env) (sender to subject html : string) (w : World) (out : gmap string string) :
  is_7bit html = false ->
  fst (SendEmails.create_message E sender to subject html w) = Ok out ->
  exists header_lines payload,
    decoded_output (Ok out)
    = Some (message_bytes
              (Email.make_boundary (randrange E (draws w)) (utf8_part payload))
              header_lines (utf8_part payload))
    /\ Base64.decode Base64.standard (without_newlines payload) = Some (utf8 html)
    /\ forall html', utf8 html' = utf8 html -> html' = html.
Proof.
  intros H8 Hout. rewrite create_message_eq in Hout. cbn [fst] in Hout.
  assert (Hpart : html_part_text html
                  = utf8_part (Base64.body_encode (utf8 html))
                  /\ Base64.decode Base64.standard
                       (without_newlines (Base64.body_encode (utf8 html)))
                     = Some (utf8 html)).
  { destruct (body_encode_chars_joined (String.length (utf8 html)) (chars (utf8 html)))
      as [Hjoin Hcr]; [now rewrite length_chars|].
    split.
    - rewrite html_part_text_layout.
      unfold charset_of, transfer_encoding_of, payload_of, utf8_part. rewrite H8.
      rewrite write_lines_id; [reflexivity|].
      unfold Base64.body_encode. now rewrite chars_of_chars.
    - unfold without_newlines, Base64.body_encode, Base64.decode.
      rewrite !chars_of_chars, Hjoin.
      rewrite decode_encode_chars by apply standard_well_formed.
      cbn. now rewrite of_chars_chars. }
  destruct Hpart as [Hpart Hdecode]. rewrite Hpart in Hout.
  destruct (Email.fold_binary (fold_other E) "to" to) as [to_line|]; [|discriminate].
  destruct (Email.fold_binary (fold_other E) "from" sender) as [from_line|]; [|discriminate].
  destruct (Email.fold_binary (fold_other E) "subject" subject) as [subject_line|];
    [|discriminate].
  cbn [exc_bind] in Hout. injection Hout as <-.
  exists (to_line +:+ from_line +:+ subject_line +:+ bcc_line),
         (Base64.body_encode (utf8 html)).
  split; [|split].
  - unfold decoded_output. rewrite lookup_singleton_eq. apply urlsafe_b64decode_encode.
  - exact Hdecode.
  - intros html' Heq. now apply utf8_inj.
Qed.

Lemma create_message_carries_utf8_body_witness :
  exists header_lines payload,
    decoded_output (Ok cafe_message)
    = Some (message_bytes
              (Email.make_boundary (randrange (cooperative 7) (draws initial_world))
                 (utf8_part payload))
              header_lines (utf8_part payload))
    /\ Base64.decode Base64.standard (without_newlines payload) = Some (utf8 cafe_body)
    /\ forall html', utf8 html' = utf8 cafe_body -> html' = cafe_body.
Proof.
  apply (create_message_carries_utf8_body (cooperative 7) "cameron.michie@ably.com"
           "a@x.com" "Hello there" cafe_body initial_world cafe_message).
  - reflexivity.
  - vm_compute. reflexivity.
Defined.






Lemma get_snowflake_connection_ok E w c w1 :
  get_snowflake_connection E w = (Ok c, w1) -> snowflake_connection w1 = Some c.
Proof.
  rewrite get_snowflake_connection_run.
  destruct (snowflake_connection w) as [c0|] eqn:Hc.
  - intros [= <- <-]. exact Hc.
  - destruct (snowflake_connect E _); [discriminate|]. intros [= <- <-]. reflexivity.
Qed.

Lemma get_snowflake_connection_raise E w e w1 :
  get_snowflake_connection E w = (Raise e, w1) -> snowflake_connection w1 = None.
Proof.
  rewrite get_snowflake_connection_run.
  destruct (snowflake_connection w) as [c0|] eqn:Hc; [discriminate|].
  destruct (snowflake_connect E _); [|discriminate]. intros [= <- <-]. exact Hc.
Qed.




Lemma process_snowflake_query_cases E get_sql w :
  process_snowflake_query E get_sql w
  = match get_sql with
    | Raise e => handled e w
    | Ok sql =>
        match fetch_data_as_json E sql w with
        | (Raise e, w') => handled e w'
        | (Ok json_data, w') =>
            match json_loads E json_data with
            | Raise e => handled e w'
            | Ok parsed_data => (Ok parsed_data, log w' (EvPrint (PJson parsed_data)))
            end
        end
    end.
Proof. apply process_snowflake_query_run. Qed.









(** X14.  When [process_snowflake_query] returns, the connection it used
    stays recorded, and the next call runs its query on that connection
    without connecting again. *)
Theorem process_snowflake_query_reuses_connection
  (E : Env) (get_sql : Exc string) (w w' : World) (parsed_data : json) :
  process_snowflake_query E get_sql w = (Ok parsed_data, w') ->
  exists c,
    snowflake_connection w' = Some c
    /\ forall sql, exists tail,
         trace (snd (process_snowflake_query E (Ok sql) w'))
         = trace w' ++ EvQuery c sql :: tail
         /\ forallb (fun ev => negb (is_connect ev)) tail = true.
Proof.
  rewrite process_snowflake_query_cases. unfold handled.
  destruct get_sql as [sql0|e0]; [|destruct (snowflake_connection w); discriminate].
  rewrite fetch_data_as_json_run.
  destruct (get_snowflake_connection E w) as [[c|e0] w1] eqn:Hget;
    [|destruct (snowflake_connection w1); discriminate].
  pose proof (get_snowflake_connection_ok E w c w1 Hget) as Hc.
  destruct (snowflake_query E _) as [text|e0];
    [|destruct (snowflake_connection (log w1 (EvQuery c sql0))); discriminate].
  destruct (json_loads E text) as [d|e0];
    [|destruct (snowflake_connection (log w1 (EvQuery c sql0))); discriminate].
  intros [= <- <-]. exists c. split; [exact Hc|].
  intros sql. rewrite process_snowflake_query_cases, fetch_data_as_json_run,
    get_snowflake_connection_run.
  cbn [log snowflake_connection]. rewrite Hc.
  set (w2 := log (log w1 (EvQuery c sql0)) (EvPrint (PJson d))).
  assert (Hc2 : snowflake_connection (log w2 (EvQuery c sql)) = Some c) by exact Hc.
  destruct (snowflake_query E (trace w2 ++ [EvQuery c sql])) as [text2|e2].
  - destruct (json_loads E text2) as [d2|e2].
    + exists [EvPrint (PJson d2)]. split; [|reflexivity].
      cbn. now rewrite <- !List.app_assoc.
    + unfold handled. rewrite Hc2. exists [EvPrint (PError e2); EvClose c].
      split; [|reflexivity]. cbn. now rewrite <- !List.app_assoc.
  - unfold handled. rewrite Hc2. exists [EvPrint (PError e2); EvClose c].
    split; [|reflexivity]. cbn. now rewrite <- !List.app_assoc.
Qed.

Lemma process_snowflake_query_reuses_connection_witness :
  exists c,
    snowflake_connection
      (snd (process_snowflake_query (cooperative 7) (Ok "SELECT 1") initial_world)) = Some c
    /\ forall sql, exists tail,
         trace (snd (process_snowflake_query (cooperative 7) (Ok sql)
                       (snd (process_snowflake_query (cooperative 7) (Ok "SELECT 1")
                               initial_world))))
         = trace (snd (process_snowflake_query (cooperative 7) (Ok "SELECT 1")
                         initial_world))
           ++ EvQuery c sql :: tail
         /\ forallb (fun ev => negb (is_connect ev)) tail = true.
Proof.
  apply (process_snowflake_query_reuses_connection (cooperative 7) (Ok "SELECT 1")
           initial_world _ (JObject [])).
  reflexivity.
Defined.

Lemma send_calls_extends w w' : extends not_mail w w' -> send_calls w' = send_calls w.
Proof.
  intros (tail & Ht & Ha). unfold send_calls. rewrite Ht, flat_map_app.
  assert (Hnil : flat_map (fun ev => match ev with EvSend _ body => [body] | _ => [] end)
                   tail = []).
  { clear Ht. induction tail as [|ev tail IH]; [reflexivity|].
    cbn [forallb] in Ha. apply andb_true_iff in Ha as [Hev Ha].
    cbn [flat_map]. rewrite (IH Ha). destruct ev; try reflexivity; discriminate Hev. }
  rewrite Hnil. apply List.app_nil_r.
Qed.

Lemma get_snowflake_connection_quiet E w :
  draws (snd (get_snowflake_connection E w)) = draws w
  /\ extends not_mail w (snd (get_snowflake_connection E w)).
Proof.
  rewrite get_snowflake_connection_run.
  destruct (snowflake_connection w); [split; [reflexivity | apply extends_refl]|].
  destruct (snowflake_connect E _); cbn [snd].
  - split; [reflexivity | now apply extends_log].
  - split; [reflexivity|].
    exists [EvConnect config; EvPrint (PText "New Snowflake connection established.")].
    split; [|reflexivity]. cbn. now rewrite <- List.app_assoc.
Qed.

Lemma fetch_data_as_json_quiet E sql w :
  draws (snd (fetch_data_as_json E sql w)) = draws w
  /\ extends not_mail w (snd (fetch_data_as_json E sql w)).
Proof.
  rewrite fetch_data_as_json_run.
  pose proof (get_snowflake_connection_quiet E w) as Hget.
  destruct (get_snowflake_connection E w) as [[c|e] w1]; cbn [snd] in *; [|exact Hget].
  destruct Hget as [Hd He]. split; [exact Hd|].
  eapply extends_trans; [exact He | now apply extends_log].
Qed.

Lemma handled_quiet e w w0 :
  draws w0 = draws w -> extends not_mail w w0 ->
  draws (snd (@handled json e w0)) = draws w
  /\ extends not_mail w (snd (@handled json e w0)).
Proof.
  intros Hd He. unfold handled.
  destruct (snowflake_connection w0) as [c|]; cbn [snd].
  - split; [exact Hd|]. eapply extends_trans; [exact He|].
    exists [EvPrint (PError e); EvClose c]. split; [|reflexivity].
    cbn. now rewrite <- List.app_assoc.
  - split; [exact Hd|]. eapply extends_trans; [exact He | now apply extends_log].
Qed.

Lemma process_snowflake_query_quiet E get_sql w :
  draws (snd (process_snowflake_query E get_sql w)) = draws w
  /\ extends not_mail w (snd (process_snowflake_query E get_sql w)).
Proof.
  rewrite process_snowflake_query_cases.
  destruct get_sql as [sql|e]; [|apply handled_quiet; [reflexivity|apply extends_refl]].
  destruct (fetch_data_as_json_quiet E sql w) as [Hd He].
  destruct (fetch_data_as_json E sql w) as [[json_data|e] w1]; cbn [snd] in *;
    [|now apply handled_quiet].
  destruct (json_loads E json_data) as [d|e]; [|now apply handled_quiet].
  cbn [snd]. split; [exact Hd|].
  eapply extends_trans; [exact He | now apply extends_log].
Qed.

(** X15.  Whatever the environment does, the warehouse client draws no
    random token, issues no call to the mail service or its authorization,
    and adds nothing to the send calls. *)
Theorem process_snowflake_query_sends_no_mail
  (E : Env) (get_sql : Exc string) (w : World) :
  let w' := snd (process_snowflake_query E get_sql w) in
  draws w' = draws w
  /\ send_calls w' = send_calls w
  /\ exists tail, trace w' = trace w ++ tail
                  /\ forallb (fun ev => negb (mail_event ev)) tail = true.
Proof.
  cbn zeta. destruct (process_snowflake_query_quiet E get_sql w) as [Hd He].
  split; [exact Hd|]. split; [now apply send_calls_extends | exact He].
Qed.

(** ** [run_script] *)





Lemma script_create_test_message E w :
  SendEmailsScript.create_message E "cameron.michie@ably.com"
    "cameron.oscar.michie@gmail.com" "Hello from Python!"
    SendEmailsScript.message_html w
  = (Ok (test_message (randrange E (draws w))), advance w).
Proof.
  rewrite script_create_message_eq.
  rewrite (fold_binary_short _ "to" "cameron.oscar.michie@gmail.com")
    by (first [reflexivity | apply Nat.leb_le; reflexivity]).
  rewrite (fold_binary_short _ "from" "cameron.michie@ably.com")
    by (first [reflexivity | apply Nat.leb_le; reflexivity]).
  rewrite (fold_binary_short _ "subject" "Hello from Python!")
    by (first [reflexivity | apply Nat.leb_le; reflexivity]).
  cbn [exc_bind].
  rewrite (html_part_text_ascii SendEmailsScript.message_html) by reflexivity.
  rewrite write_lines_id.
  - reflexivity.
  - apply (forallb_not_in (fun c => negb (Ascii.eqb c CR))); reflexivity.
Qed.

(** X17.  When authorization succeeds, [main] of [send-emails.py] hands
    exactly one message to the mail service: the fixed test message to
    cameron.oscar.michie@gmail.com, with the headers to, from and subject
    and no bcc header, its HTML body unchanged.  It then prints the
    message id, or raises what the send call raised, or [KeyError] when
    the response has no [id]. *)
Theorem main_sends_one_test_message (E : Env) (w : World) :
  authorizes E ->
  let message := test_message (randrange E (draws w)) in
  let w1 := log (advance (authorized w)) (EvSend "me" message) in
  SendEmailsScript.main E w
  = match gmail_send E (trace w1) with
    | Raise e => (Raise e, w1)
    | Ok result =>
        match result !! "id" with
        | None => (Raise (KeyError "id"), w1)
        | Some id => (Ok tt, log w1 (EvPrint (PText ("Message Id: " +:+ id))))
        end
    end
  /\ send_calls w1 = send_calls w ++ [message]
  /\ decoded_output (Ok message)
     = Some (message_bytes (Email.make_boundary (randrange E (draws w)) test_part)
               test_headers test_part).
Proof.
  intros Ha message w1. split; [|split].
  - unfold SendEmailsScript.main. cbn zeta.
    unfold bind at 1. rewrite call_run.
    destruct (Ha (trace w ++ [EvFromClientSecretsFile "credentials.json"
                                SendEmailsScript.SCOPES])) as (-> & _ & _).
    unfold bind at 1. rewrite call_run.
    destruct (Ha (trace (log w (EvFromClientSecretsFile "credentials.json"
                                  SendEmailsScript.SCOPES))
                  ++ [EvRunLocalServer 0])) as (_ & -> & _).
    unfold bind at 1. rewrite call_run.
    destruct (Ha (trace (log (log w (EvFromClientSecretsFile "credentials.json"
                                       SendEmailsScript.SCOPES)) (EvRunLocalServer 0))
                  ++ [EvBuild "gmail" "v1"])) as (_ & _ & ->).
    change (log (log (log w (EvFromClientSecretsFile "credentials.json"
                               SendEmailsScript.SCOPES)) (EvRunLocalServer 0))
                (EvBuild "gmail" "v1")) with (authorized w).
    unfold bind at 1. rewrite script_create_test_message.
    change (randrange E (draws (authorized w))) with (randrange E (draws w)).
    fold message. unfold ask, emit, bind. cbn beta iota zeta. fold w1.
    destruct (gmail_send E (trace w1)) as [result|e]; [|reflexivity].
    unfold getitem. destruct (result !! "id"); reflexivity.
  - unfold w1. rewrite send_calls_log, send_calls_advance, send_calls_authorized.
    reflexivity.
  - unfold decoded_output, message, test_message. rewrite lookup_singleton_eq.
    apply urlsafe_b64decode_encode.
Qed.

Lemma main_sends_one_test_message_witness :
  let message := test_message (randrange (cooperative 7) (draws initial_world)) in
  let w1 := log (advance (authorized initial_world)) (EvSend "me" message) in
  SendEmailsScript.main (cooperative 7) initial_world
  = match gmail_send (cooperative 7) (trace w1) with
    | Raise e => (Raise e, w1)
    | Ok result =>
        match result !! "id" with
        | None => (Raise (KeyError "id"), w1)
        | Some id => (Ok tt, log w1 (EvPrint (PText ("Message Id: " +:+ id))))
        end
    end
  /\ send_calls w1 = send_calls initial_world ++ [message]
  /\ decoded_output (Ok message)
     = Some (message_bytes
               (Email.make_boundary (randrange (cooperative 7) (draws initial_world))
                  test_part)
               test_headers test_part).
Proof.
  apply (main_sends_one_test_message (cooperative 7) initial_world).
  apply cooperative_authorizes.
Defined.

